(** * Verification of scripts/keep_alive.py (Zeabur keep-alive script)

    A shallow embedding of the cookie codec ([parse_cookies],
    [format_cookies]), of the cookie login loop ([login_with_cookie]), of
    the GitHub secret update ([update_github_secret]), of the Telegram
    notifier and of [main].  Python strings are lists of ASCII characters. *)

From Stdlib Require Import List Ascii String Bool Arith ZArith Lia.
Import ListNotations.
Open Scope list_scope.

(** ** Python string primitives *)
Module PyStr.

Definition pystr := list ascii.

(** A Rocq string literal as a Python string. *)
Definition lit (s : string) : pystr := list_ascii_of_string s.

(** [str.isspace] on ASCII characters: \t \n \v \f \r, the separators
    \x1c-\x1f and the blank. *)
Definition is_space (c : ascii) : bool :=
  let n := nat_of_ascii c in
  ((9 <=? n) && (n <=? 13)) || ((28 <=? n) && (n <=? 31)) || (n =? 32).

Fixpoint lstrip (s : pystr) : pystr :=
  match s with
  | [] => []
  | c :: t => if is_space c then lstrip t else s
  end.

Definition rstrip (s : pystr) : pystr := rev (lstrip (rev s)).

(** [s.strip()] *)
Definition strip (s : pystr) : pystr := rstrip (lstrip s).

(** [s.split(sep)] for a one-character separator: never empty. *)
Fixpoint split_on (sep : ascii) (s : pystr) : list pystr :=
  match s with
  | [] => [[]]
  | c :: t =>
      if Ascii.eqb c sep then [] :: split_on sep t
      else match split_on sep t with
           | [] => [[c]]
           | h :: r => (c :: h) :: r
           end
  end.

(** [s.split(sep, 1)] for a one-character separator. *)
Fixpoint split_once (sep : ascii) (s : pystr) : list pystr :=
  match s with
  | [] => [[]]
  | c :: t =>
      if Ascii.eqb c sep then [[]; t]
      else match split_once sep t with
           | [] => [[c]]
           | h :: r => (c :: h) :: r
           end
  end.

(** [sep.join(parts)] *)
Definition join (sep : pystr) (parts : list pystr) : pystr :=
  match parts with
  | [] => []
  | p :: rest => p ++ List.concat (map (fun q => sep ++ q) rest)
  end.

Fixpoint is_prefix (p s : pystr) : bool :=
  match p, s with
  | [], _ => true
  | _ :: _, [] => false
  | a :: p', b :: s' => Ascii.eqb a b && is_prefix p' s'
  end.

(** [sub in s] *)
Fixpoint contains (sub s : pystr) : bool :=
  is_prefix sub s ||
  match s with
  | [] => false
  | _ :: t => contains sub t
  end.

End PyStr.

Import PyStr.

(** ** Cookie codec *)
Module Codec.

(** A cookie dict as Playwright has it; [domain] may be missing in a dict
    (read with [c.get('domain', '')]). *)
Record cookie := mk_cookie {
  name : pystr;
  value : pystr;
  domain : option pystr;
  path : option pystr
}.

Definition TARGET_DOMAIN : pystr := lit ".zeabur.com".

(** The dict built by [parse_cookies] for one well-formed segment. *)
Definition zeabur_cookie (n v : pystr) : cookie :=
  {| name := n; value := v; domain := Some TARGET_DOMAIN; path := Some (lit "/") |}.

(** The loop body of [parse_cookies], appending to [cookies]. *)
Fixpoint parse_loop (segs : list pystr) (cookies : list cookie) : list cookie :=
  match segs with
  | [] => cookies
  | cookie :: rest =>
      match split_once "=" (strip cookie) with
      | [p0; p1] => parse_loop rest (cookies ++ [zeabur_cookie (strip p0) (strip p1)])
      | _ => parse_loop rest cookies
      end
  end.

Definition parse_cookies (cookie_string : pystr) : list cookie :=
  parse_loop (split_on ";" cookie_string) [].

Definition get_domain (c : cookie) : pystr :=
  match domain c with Some d => d | None => [] end.

(** The generator's condition [ 'zeabur.com' in c.get('domain', '') ]. *)
Definition domain_matches (c : cookie) : bool :=
  contains (lit "zeabur.com") (get_domain c).

Definition name_value (c : cookie) : pystr := name c ++ lit "=" ++ value c.

Definition format_cookies (cookies : list cookie) : pystr :=
  join (lit "; ") (map name_value (filter domain_matches cookies)).

(** Spec side of the codec: where a segment breaks at its first [c]. *)
Fixpoint break_at (c : ascii) (s : pystr) : pystr * pystr :=
  match s with
  | [] => ([], [])
  | x :: t => if Ascii.eqb x c then ([], t)
              else let '(a, b) := break_at c t in (x :: a, b)
  end.

Definition has_char (c : ascii) (s : pystr) : bool := existsb (Ascii.eqb c) s.

(** The record a segment stands for: the stripped text before and after its
    first [=]. *)
Definition segment_cookie (seg : pystr) : cookie :=
  let '(a, b) := break_at "=" seg in zeabur_cookie (strip a) (strip b).

Definition no_lead (s : pystr) : bool :=
  match s with [] => true | c :: _ => negb (is_space c) end.

Definition no_trail (s : pystr) : bool := no_lead (rev s).

(** A record the header syntax can carry: no [;] in name or value, no [=]
    in the name, no surrounding whitespace. *)
Definition header_safe (c : cookie) : bool :=
  negb (has_char ";" (name c)) && negb (has_char "=" (name c))
  && no_lead (name c) && no_trail (name c)
  && negb (has_char ";" (value c)) && no_lead (value c) && no_trail (value c).

Definition name_value_pairs (cs : list cookie) : list (pystr * pystr) :=
  map (fun c => (name c, value c)) cs.

End Codec.

Import Codec.

(** ** Effects: Python exceptions, [sys.exit], and the observable trace *)
Module Eff.

(** The exceptions the modelled calls raise ([Exception] subclasses). *)
Inductive exn :=
  | PlaywrightError      (* playwright.sync_api.Error / TimeoutError *)
  | HTTPError            (* requests.HTTPError from raise_for_status *)
  | ConnectionError      (* requests network errors and timeouts *)
  | KeyError
  | ValueError           (* bad JSON, bad unpacking *)
  | DecodeError          (* binascii.Error from b64decode *)
  | CryptoError          (* nacl: public key of the wrong length *)
  | OSError.             (* open() of the screenshot file *)

(** How a Python computation ends: a value, an [Exception], or
    [sys.exit(code)] (a [BaseException], not caught by [except Exception]). *)
Inductive pyres (A : Type) :=
  | PRet (a : A)
  | PRaise (e : exn)
  | PExit (code : Z).
Arguments PRet {A}. Arguments PRaise {A}. Arguments PExit {A}.

Definition page := nat.

(** HTTP outcome of one [requests] call. *)
Inductive http_result :=
  | HttpStatus (code : Z)
  | HttpNetError.

(** Observable effects, in program order. *)
Inductive event :=
  | Print (msg : pystr)
  | LaunchBrowser
  | CloseBrowser
  | AddCookies (cs : list cookie)
  | NewPage (p : page)
  | Goto (p : page) (url : pystr)
  | WaitForTimeout (p : page) (ms : nat)
  | ClosePage (p : page)
  | Sleep (secs : nat)
  | Screenshot (p : page) (file : pystr)
  | ReadCookies
  | HttpGet (url : pystr)
  | HttpPut (url : pystr) (encrypted_value : pystr) (key_id : pystr)
  | HttpPost (url : pystr) (fields : list (pystr * pystr))
  | OpenFile (file : pystr).

Record state := mk_state {
  next_page : nat;                    (* id of the next page opened *)
  open_pages : list page;
  page_urls : list (page * pystr);    (* page.url of navigated pages *)
  nav_count : nat;                    (* navigations issued so far *)
  trace : list event
}.

(** A fresh browser context: no page, no navigation, nothing observed. *)
Definition fresh_state : state := mk_state 0 [] [] 0 [].

Definition M (A : Type) := state -> state * pyres A.

Definition ret {A} (a : A) : M A := fun s => (s, PRet a).
Definition raise {A} (e : exn) : M A := fun s => (s, PRaise e).
Definition sys_exit {A} (code : Z) : M A := fun s => (s, PExit code).

Definition bind {A B} (m : M A) (k : A -> M B) : M B :=
  fun s => match m s with
           | (s', PRet a) => k a s'
           | (s', PRaise e) => (s', PRaise e)
           | (s', PExit c) => (s', PExit c)
           end.

Notation "x <- m ;; k" := (bind m (fun x => k)) (at level 61, m at next level, right associativity).
Notation "m ;;; k" := (bind m (fun _ => k)) (at level 61, right associativity).

Definition emit (e : event) : M unit :=
  fun s => ({| next_page := next_page s; open_pages := open_pages s;
               page_urls := page_urls s; nav_count := nav_count s;
               trace := trace s ++ [e] |}, PRet tt).

(** [try: m except Exception as e: h e] *)
Definition try_except {A} (m : M A) (h : exn -> M A) : M A :=
  fun s => match m s with
           | (s', PRaise e) => h e s'
           | r => r
           end.

(** [try: m finally: f]: an exception of [f] replaces the outcome of [m]. *)
Definition try_finally {A} (m : M A) (f : M unit) : M A :=
  fun s => let '(s1, r) := m s in
           match f s1 with
           | (s2, PRet _) => (s2, r)
           | (s2, PRaise e) => (s2, PRaise e)
           | (s2, PExit c) => (s2, PExit c)
           end.

(** [response.raise_for_status()] raises on 4xx and 5xx only. *)
Definition raise_for_status (code : Z) : M unit :=
  if (400 <=? code)%Z && (code <? 600)%Z then raise HTTPError else ret tt.

(** A request [raise_for_status] lets through: no network error and no
    4xx or 5xx status. *)
Definition http_ok (r : http_result) : bool :=
  match r with
  | HttpNetError => false
  | HttpStatus code => negb ((400 <=? code)%Z && (code <? 600)%Z)
  end.

(** The process exit status of a run of [main]. *)
Definition exit_code {A} (r : pyres A) : Z :=
  match r with
  | PRet _ => 0
  | PRaise _ => 1          (* uncaught exception: the interpreter exits with 1 *)
  | PExit c => c
  end.

(** [m] only appends to the trace, and every event it appends satisfies [P]. *)
Definition emits {A} (P : event -> Prop) (m : M A) : Prop :=
  forall s, exists new, trace (fst (m s)) = trace s ++ new /\ Forall P new.

End Eff.

Import Eff.

(** ** Cookie login with retries ([login_with_cookie]) *)
Module Validator.

Definition ZEABUR_DASHBOARD_URL : pystr := lit "https://zeabur.com/projects".

(** What the k-th navigation of the context does: the page ends on [url],
    or [page.goto]/[wait_for_timeout] raises. *)
Inductive nav_outcome :=
  | NavUrl (url : pystr)
  | NavRaise.

(** The browser context as the login sees it. *)
Record browser := mk_browser {
  add_cookies_ok : bool;              (* context.add_cookies accepts them *)
  nav : nat -> nav_outcome            (* outcome of the k-th navigation *)
}.

Definition context_add_cookies (b : browser) (cs : list cookie) : M unit :=
  if add_cookies_ok b then emit (AddCookies cs) else raise PlaywrightError.

Definition new_page : M page :=
  fun s => let p := next_page s in
           ({| next_page := S p; open_pages := open_pages s ++ [p];
               page_urls := page_urls s; nav_count := nav_count s;
               trace := trace s ++ [NewPage p] |}, PRet p).

Definition set_url (p : page) (u : pystr) : M unit :=
  fun s => ({| next_page := next_page s; open_pages := open_pages s;
               page_urls := (p, u) :: page_urls s; nav_count := nav_count s;
               trace := trace s |}, PRet tt).

Definition bump_nav : M nat :=
  fun s => ({| next_page := next_page s; open_pages := open_pages s;
               page_urls := page_urls s; nav_count := S (nav_count s);
               trace := trace s |}, PRet (nav_count s)).

(** [page.goto(url, wait_until='networkidle')] *)
Definition goto (b : browser) (p : page) (url : pystr) : M unit :=
  emit (Goto p url) ;;;
  k <- bump_nav ;;
  match nav b k with
  | NavUrl u => set_url p u
  | NavRaise => raise PlaywrightError
  end.

Fixpoint url_lookup (p : page) (l : list (page * pystr)) : pystr :=
  match l with
  | [] => lit "about:blank"
  | (q, u) :: t => if Nat.eqb p q then u else url_lookup p t
  end.

(** [page.url] *)
Definition page_url (p : page) : M pystr := fun s => (s, PRet (url_lookup p (page_urls s))).

(** [page.close()] *)
Definition close_page (p : page) : M unit :=
  fun s => ({| next_page := next_page s;
               open_pages := filter (fun q => negb (Nat.eqb q p)) (open_pages s);
               page_urls := page_urls s; nav_count := nav_count s;
               trace := trace s ++ [ClosePage p] |}, PRet tt).

(** The body of [for attempt in range(max_retries + 1)]; [Some page] is
    [return page, True]. *)
Fixpoint attempt_loop (b : browser) (max_retries : nat) (attempts : list nat)
  : M (option page) :=
  match attempts with
  | [] => ret None
  | attempt :: rest =>
      page <- new_page ;;
      outcome <- try_except
        (goto b page ZEABUR_DASHBOARD_URL ;;;
         emit (WaitForTimeout page 3000) ;;;
         url <- page_url page ;;
         if negb (contains (lit "/login") url) then
           emit (Print (lit "cookie login succeeded")) ;;; ret (Some page)
         else
           emit (Print (lit "attempt failed, redirected to login")) ;;;
           close_page page ;;; ret None)
        (fun _ => emit (Print (lit "attempt raised")) ;;; close_page page ;;; ret None) ;;
      match outcome with
      | Some p => ret (Some p)
      | None =>
          (if attempt <? max_retries then
             emit (Print (lit "waiting before retry")) ;;; emit (Sleep (5 * (attempt + 1)))
           else ret tt) ;;;
          attempt_loop b max_retries rest
      end
  end.

Definition login_with_cookie (b : browser) (cookie_string : pystr) (max_retries : nat)
  : M (page * bool) :=
  emit (Print (lit "trying cookie login")) ;;;
  context_add_cookies b (parse_cookies cookie_string) ;;;
  found <- attempt_loop b max_retries (seq 0 (S max_retries)) ;;
  match found with
  | Some p => ret (p, true)
  | None => emit (Print (lit "cookie expired")) ;;; p <- new_page ;; ret (p, false)
  end.

(** The default argument [max_retries: int = 2]. *)
Definition DEFAULT_MAX_RETRIES : nat := 2.

(** A browser whose navigations all raise. *)
Definition all_raise : browser := mk_browser true (fun _ => NavRaise).

(** A browser redirected to the login page on its first two navigations,
    and left on the dashboard by the third. *)
Definition redirect_twice : browser :=
  mk_browser true (fun k => match k with
                            | 0 | 1 => NavUrl (lit "https://zeabur.com/login")
                            | _ => NavUrl ZEABUR_DASHBOARD_URL
                            end).

(** An attempt fails when its navigation raises or ends on a login URL. *)
Definition attempt_fails (o : nav_outcome) : bool :=
  match o with
  | NavUrl u => contains (lit "/login") u
  | NavRaise => true
  end.

(** Replays a trace and checks that every page is opened when no other page
    is open: no page handle outlives its attempt. *)
Definition page_step (opened : list page) (e : event) : option (list page) :=
  match e with
  | NewPage p => match opened with [] => Some [p] | _ :: _ => None end
  | ClosePage p => Some (filter (fun q => negb (Nat.eqb q p)) opened)
  | _ => Some opened
  end.

Fixpoint replay_pages (opened : list page) (tr : list event) : option (list page) :=
  match tr with
  | [] => Some opened
  | e :: t => match page_step opened e with
              | Some o => replay_pages o t
              | None => None
              end
  end.

Definition one_page_at_a_time (tr : list event) : bool :=
  match replay_pages [] tr with Some _ => true | None => false end.

(** The attempts and sleeps of a trace, in order. *)
Inductive beat := BAttempt | BSleep (secs : nat).

Fixpoint beats (tr : list event) : list beat :=
  match tr with
  | [] => []
  | Goto _ _ :: t => BAttempt :: beats t
  | Sleep n :: t => BSleep n :: beats t
  | _ :: t => beats t
  end.

(** Spec side: [k] attempts with a sleep of [5 * n] seconds before retry [n]. *)
Definition backoff_schedule (k : nat) : list beat :=
  match k with
  | 0 => []
  | S k' => BAttempt :: List.concat (map (fun n => [BSleep (5 * n); BAttempt]) (seq 1 k'))
  end.

(** The beats of attempts [a+1], [a+2], ... after a first one, [k] in all. *)
Definition schedule_from (a k : nat) : list beat :=
  match k with
  | 0 => []
  | S k' => BAttempt :: List.concat (map (fun n => [BSleep (5 * n); BAttempt]) (seq (S a) k'))
  end.

Fixpoint count_new_pages (tr : list event) : nat :=
  match tr with
  | [] => 0
  | NewPage _ :: t => S (count_new_pages t)
  | _ :: t => count_new_pages t
  end.

(** The invariant of the browser state along a run. *)
Definition Inv (s : state) : Prop :=
  replay_pages [] (trace s) = Some (open_pages s) /\
  (forall q, In (NewPage q) (trace s) -> q < next_page s).

(** The events [login_with_cookie cookie_string] may produce: the cookies it
    adds are those parsed from [cookie_string], it only navigates to the
    dashboard and only waits 3000 ms after a navigation. *)
Definition login_event (cookie_string : pystr) (e : event) : Prop :=
  match e with
  | Print _ | NewPage _ | ClosePage _ | Sleep _ => True
  | AddCookies cs => cs = parse_cookies cookie_string
  | Goto _ u => u = ZEABUR_DASHBOARD_URL
  | WaitForTimeout _ ms => ms = 3000
  | _ => False
  end.



End Validator.

Import Validator.

(** ** GitHub secret update ([update_github_secret]) *)
Module Secret.

(** The JSON body of the public-key response, as far as the code reads it:
    [key_data['key']] (absent, or present with its base64 decoding, which
    may fail) and [key_data['key_id']]. *)
Record key_body := mk_key_body {
  kb_key : option (option (list Z));
  kb_key_id : option pystr
}.

(** The GitHub REST API as the script sees it.  [seal] stands for
    [SealedBox(PublicKey(k)).encrypt] followed by base64 encoding. *)
Record github := mk_github {
  gh_get_status : http_result;          (* GET .../public-key *)
  gh_get_json : option key_body;        (* None: the body is not a JSON object *)
  gh_put_status : http_result;          (* PUT .../secrets/{name} *)
  gh_seal : list Z -> pystr -> pystr
}.

Definition http_request (r : http_result) : M unit :=
  match r with
  | HttpNetError => raise ConnectionError
  | HttpStatus code => raise_for_status code
  end.

Definition key_url (owner repo : pystr) : pystr :=
  lit "https://api.github.com/repos/" ++ owner ++ lit "/" ++ repo
  ++ lit "/actions/secrets/public-key".

Definition update_url (owner repo secret_name : pystr) : pystr :=
  lit "https://api.github.com/repos/" ++ owner ++ lit "/" ++ repo
  ++ lit "/actions/secrets/" ++ secret_name.

Definition update_github_secret (g : github) (token owner repo secret_name secret_value : pystr)
  : M unit :=
  (* key_response = requests.get(...); key_response.raise_for_status() *)
  emit (HttpGet (key_url owner repo)) ;;;
  http_request (gh_get_status g) ;;;
  (* key_data = key_response.json() *)
  match gh_get_json g with
  | None => raise ValueError
  | Some kd =>
      (* public_key_bytes = base64.b64decode(key_data['key']) *)
      match kb_key kd with
      | None => raise KeyError
      | Some None => raise DecodeError
      | Some (Some key_bytes) =>
          (* public.PublicKey(public_key_bytes) needs 32 bytes *)
          if negb (Nat.eqb (List.length key_bytes) 32) then raise CryptoError else
          let encrypted_value := gh_seal g key_bytes secret_value in
          (* the PUT body reads key_data['key_id'] before the request *)
          match kb_key_id kd with
          | None => raise KeyError
          | Some key_id =>
              emit (HttpPut (update_url owner repo secret_name) encrypted_value key_id) ;;;
              http_request (gh_put_status g)
          end
      end
  end.

Definition is_get (e : event) : bool := match e with HttpGet _ => true | _ => false end.
Definition is_put (e : event) : bool := match e with HttpPut _ _ _ => true | _ => false end.

(** Spec side: the requests of one call, in order. *)
Definition requests_of (tr : list event) : list event :=
  filter (fun e => is_get e || is_put e) tr.

(** The key of the GET response can be used: a JSON object whose [key]
    decodes to 32 bytes and which has a [key_id]. *)
Definition key_usable (g : github) : bool :=
  match gh_get_json g with
  | Some kd =>
      match kb_key kd, kb_key_id kd with
      | Some (Some k), Some _ => Nat.eqb (List.length k) 32
      | _, _ => false
      end
  | None => false
  end.

(** Both requests of [update_github_secret] get through and the key is usable. *)
Definition secret_update_ok (g : github) : bool :=
  http_ok (gh_get_status g) && key_usable g && http_ok (gh_put_status g).

(** Spec side (the claim's wording): a request fails on a network error or
    a non-2xx status. *)
Definition request_fails (r : http_result) : bool :=
  match r with
  | HttpNetError => true
  | HttpStatus code => negb ((200 <=? code)%Z && (code <? 300)%Z)
  end.

(** The requests [update_github_secret] may issue: the GET of the key URL,
    and a PUT of the secret URL carrying the key id of the GET response and
    the value sealed with its key. *)
Definition secret_event (g : github) (owner repo secret_name secret_value : pystr) (e : event) : Prop :=
  match e with
  | HttpGet u => u = key_url owner repo
  | HttpPut u ev kid =>
      u = update_url owner repo secret_name /\
      exists kd key, gh_get_json g = Some kd /\ kb_key kd = Some (Some key) /\
                     kb_key_id kd = Some kid /\ ev = gh_seal g key secret_value
  | _ => False
  end.

End Secret.

(** ** Telegram notifier *)
Module Telegram.

(** The Bot API and the file system as the notifier sees them. *)
Record telegram := mk_telegram {
  tg_post : pystr -> http_result;       (* outcome of a POST to an endpoint *)
  tg_file_readable : pystr -> bool      (* open(path, 'rb') succeeds *)
}.

Definition post (t : telegram) (url : pystr) (fields : list (pystr * pystr)) : M unit :=
  emit (HttpPost url fields) ;;;
  match tg_post t url with
  | HttpNetError => raise ConnectionError
  | HttpStatus code => raise_for_status code
  end.

Definition send_telegram_message (t : telegram) (bot_token chat_id message : pystr) : M bool :=
  let url := lit "https://api.telegram.org/bot" ++ bot_token ++ lit "/sendMessage" in
  try_except
    (post t url [(lit "chat_id", chat_id); (lit "text", message); (lit "parse_mode", lit "HTML")] ;;;
     ret true)
    (fun _ => emit (Print (lit "telegram message failed")) ;;; ret false).

(** [open(path, 'rb')]: the attempt is observed, then it may raise. *)
Definition open_file (t : telegram) (path : pystr) : M unit :=
  emit (OpenFile path) ;;;
  if tg_file_readable t path then ret tt else raise OSError.

Definition send_telegram_photo (t : telegram) (bot_token chat_id photo_path caption : pystr) : M bool :=
  let url := lit "https://api.telegram.org/bot" ++ bot_token ++ lit "/sendPhoto" in
  try_except
    (open_file t photo_path ;;;
     post t url [(lit "chat_id", chat_id); (lit "caption", caption); (lit "photo", photo_path)] ;;;
     ret true)
    (fun _ => emit (Print (lit "telegram photo failed")) ;;; ret false).

(** Spec side: a POST fails on a network error or a non-2xx status. *)
Definition post_fails_non2xx (r : http_result) : bool := Secret.request_fails r.

End Telegram.

(** ** The entry point ([main]) *)
Module Main.
Import Secret Telegram.

(** The environment variables read by [main]. *)
Record environ := mk_environ {
  ZEABUR_COOKIE : option pystr;
  REPO_TOKEN : option pystr;
  GITHUB_REPOSITORY : option pystr;
  TG_BOT_TOKEN : option pystr;
  TG_CHAT_ID : option pystr
}.

(** Everything outside the script that a run depends on. *)
Record world := mk_world {
  w_launch_ok : bool;                 (* sync_playwright(), launch(), new_context() *)
  w_browser : browser;
  w_screenshot_ok : bool;             (* page.screenshot(...) *)
  w_cookies : option (list cookie);   (* context.cookies(); None: it raises *)
  w_github : github;
  w_telegram : telegram;
  w_close_ok : bool;                  (* browser.close() *)
  w_now : pystr                       (* datetime.now().strftime(...) *)
}.

Definition SCREENSHOT_PATH : pystr := lit "/tmp/zeabur_dashboard.png".

(** Python truthiness of an optional string ([None] and [''] are false). *)
Definition truthy (o : option pystr) : bool :=
  match o with Some (_ :: _) => true | _ => false end.

Definition the_str (o : option pystr) : pystr := match o with Some s => s | None => [] end.

Definition nonempty (s : pystr) : bool := match s with [] => false | _ => true end.

Definition launch (w : world) : M unit :=
  if w_launch_ok w then emit LaunchBrowser else raise PlaywrightError.

Definition screenshot (w : world) (p : page) : M unit :=
  if w_screenshot_ok w then emit (Screenshot p SCREENSHOT_PATH) else raise PlaywrightError.

Definition context_cookies (w : world) : M (list cookie) :=
  match w_cookies w with
  | Some cs => emit ReadCookies ;;; ret cs
  | None => raise PlaywrightError
  end.

Definition browser_close (w : world) : M unit :=
  if w_close_ok w then emit CloseBrowser else raise PlaywrightError.

(** [owner, repo_name = repo.split('/')] *)
Definition split_repo (repo : pystr) : M (pystr * pystr) :=
  match split_on "/" repo with
  | [owner; repo_name] => ret (owner, repo_name)
  | _ => raise ValueError
  end.

(** The report text (the Chinese wording of the source shortened to ASCII). *)
Definition report (now : pystr) (logs : list pystr) : pystr :=
  lit "<b>Zeabur auto login</b> status: success, time: " ++ now
  ++ lit " <b>logs:</b> " ++ join [ascii_of_nat 10] logs.

(** The Telegram block of the success path. *)
Definition notify_success (w : world) (tg_bot_token tg_chat_id : pystr) (logs : list pystr)
  : M unit :=
  emit (Print (lit "sending telegram notification")) ;;;
  msg_sent <- send_telegram_message (w_telegram w) tg_bot_token tg_chat_id
                (report (w_now w) logs) ;;
  photo_sent <- send_telegram_photo (w_telegram w) tg_bot_token tg_chat_id
                  SCREENSHOT_PATH (lit "Zeabur dashboard screenshot") ;;
  if msg_sent && photo_sent then emit (Print (lit "telegram notification sent"))
  else emit (Print (lit "telegram notification partly failed")).

(** The part of [main] inside [try]. *)
Definition main_body (env : environ) (w : world) (cookie_string : pystr) : M unit :=
  let tg_bot_token := the_str (TG_BOT_TOKEN env) in
  let tg_chat_id := the_str (TG_CHAT_ID env) in
  let tg_on := truthy (TG_BOT_TOKEN env) && truthy (TG_CHAT_ID env) in
  let repo := the_str (GITHUB_REPOSITORY env) in
  res <- login_with_cookie (w_browser w) cookie_string DEFAULT_MAX_RETRIES ;;
  let '(page, login_success) := res in
  if negb login_success then
    emit (Print (lit "cookie login failed")) ;;;
    (if tg_on then
       _ <- send_telegram_message (w_telegram w) tg_bot_token tg_chat_id
              (lit "cookie login failed, please update ZEABUR_COOKIE") ;; ret tt
     else ret tt) ;;;
    sys_exit 1
  else
    emit (Print (lit "login succeeded")) ;;;
    screenshot w page ;;;
    emit (Print (lit "screenshot saved")) ;;;
    cookies <- context_cookies w ;;
    let new_cookie_string := format_cookies cookies in
    logs <- (if truthy (REPO_TOKEN env) && nonempty repo && nonempty new_cookie_string then
               emit (Print (lit "updating cookie")) ;;;
               names <- split_repo repo ;;
               let '(owner, repo_name) := names in
               update_github_secret (w_github w) (the_str (REPO_TOKEN env)) owner repo_name
                 (lit "ZEABUR_COOKIE") new_cookie_string ;;;
               emit (Print (lit "secret ZEABUR_COOKIE updated")) ;;;
               ret [lit "visited dashboard"; lit "ZEABUR_COOKIE updated"]
             else ret [lit "visited dashboard"]) ;;
    if tg_on then notify_success w tg_bot_token tg_chat_id logs
    else emit (Print (lit "telegram not configured")).

Definition main (env : environ) (w : world) : M unit :=
  let tg_on := truthy (TG_BOT_TOKEN env) && truthy (TG_CHAT_ID env) in
  if negb (truthy (ZEABUR_COOKIE env)) then
    emit (Print (lit "error: ZEABUR_COOKIE not set")) ;;; sys_exit 1
  else
    emit (Print (lit "starting browser")) ;;;
    launch w ;;;
    try_finally
      (try_except (main_body env w (the_str (ZEABUR_COOKIE env)))
         (fun _ => emit (Print (lit "run failed")) ;;;
                   (if tg_on then
                      _ <- send_telegram_message (w_telegram w) (the_str (TG_BOT_TOKEN env))
                             (the_str (TG_CHAT_ID env)) (lit "run failed") ;; ret tt
                    else ret tt) ;;;
                   sys_exit 1))
      (browser_close w).

(** The exit status of a run from a fresh process. *)
Definition run_exit_code (env : environ) (w : world) : Z :=
  exit_code (snd (main env w fresh_state)).

(** Spec side: some attempt of the default three ends on a URL without
    [/login] (after [context.add_cookies] succeeded). *)
Definition validation_succeeds (b : browser) : bool :=
  add_cookies_ok b &&
  existsb (fun a => negb (attempt_fails (nav b a))) (seq 0 (S DEFAULT_MAX_RETRIES)).

(** [repo_token and repo and new_cookie_string] *)
Definition publish_gate (env : environ) (cs : list cookie) : bool :=
  truthy (REPO_TOKEN env) && nonempty (the_str (GITHUB_REPOSITORY env)) && nonempty (format_cookies cs).

(** [repo.split('/')] unpacks into two names. *)
Definition repo_splits (env : environ) : bool :=
  match split_on "/" (the_str (GITHUB_REPOSITORY env)) with [_; _] => true | _ => false end.

(** Spec side: nothing raises after a successful validation, up to the
    [finally] clause: the screenshot, [context.cookies()] and, when the
    publication runs, the unpacking of the repository name and the secret
    update. *)
Definition after_validation_ok (env : environ) (w : world) : bool :=
  w_screenshot_ok w &&
  match w_cookies w with
  | Some cs => negb (publish_gate env cs) || (repo_splits env && secret_update_ok (w_github w))
  | None => false
  end.

(** Spec side: the cookie is set, the browser starts, the validation
    succeeds and no exception is raised afterwards (including by
    [browser.close()] in [finally]). *)
Definition run_succeeds (env : environ) (w : world) : bool :=
  truthy (ZEABUR_COOKIE env) && w_launch_ok w && validation_succeeds (w_browser w) &&
  after_validation_ok env w && w_close_ok w.

(** The same world with another Telegram service. *)
Definition with_telegram (w : world) (t : telegram) : world :=
  {| w_launch_ok := w_launch_ok w; w_browser := w_browser w;
     w_screenshot_ok := w_screenshot_ok w; w_cookies := w_cookies w;
     w_github := w_github w; w_telegram := t; w_close_ok := w_close_ok w;
     w_now := w_now w |}.

(** An event that is not a Telegram request or a file opened for it. *)
Definition no_telegram (e : event) : Prop :=
  match e with HttpPost _ _ | OpenFile _ => False | _ => True end.

(** The run reaches the secret update of [owner/repo_name] with the
    cookies [cs]: every step before it succeeded and the gate let it in. *)
Definition published_from (env : environ) (w : world) (cs : list cookie) (owner repo_name : pystr) : Prop :=
  truthy (ZEABUR_COOKIE env) = true /\ w_launch_ok w = true /\
  validation_succeeds (w_browser w) = true /\ w_screenshot_ok w = true /\
  w_cookies w = Some cs /\ publish_gate env cs = true /\
  split_on "/" (the_str (GITHUB_REPOSITORY env)) = [owner; repo_name].

(** A GitHub request of a run is issued only for a run that reached the
    secret update, to the repository named by [GITHUB_REPOSITORY], and the
    PUT carries the encoding of the cookies read back from the browser. *)
Definition github_event_ok (env : environ) (w : world) (e : event) : Prop :=
  match e with
  | HttpGet u => exists cs o n, published_from env w cs o n /\ u = key_url o n
  | HttpPut u ev kid =>
      exists cs o n kd key, published_from env w cs o n /\
        u = update_url o n (lit "ZEABUR_COOKIE") /\
        gh_get_json (w_github w) = Some kd /\ kb_key kd = Some (Some key) /\
        kb_key_id kd = Some kid /\ ev = gh_seal (w_github w) key (format_cookies cs)
  | _ => True
  end.

End Main.

(** * Proofs *)

(** ** Python string primitives *)
Module PyStrFacts.

Lemma lstrip_app_nonspace (y z : pystr) (c : ascii) :
  is_space c = false -> lstrip (y ++ c :: z) = lstrip y ++ c :: z.
Proof.
  intros Hc. induction y as [|a y IH]; simpl.
  - rewrite Hc. reflexivity.
  - destruct (is_space a); [exact IH | reflexivity].
Qed.

Lemma lstrip_all_space (y : pystr) : forallb is_space y = true -> lstrip y = [].
Proof.
  induction y as [|a y IH]; simpl; [reflexivity|].
  intros H. apply andb_prop in H as [Ha Hy]. rewrite Ha. auto.
Qed.

Lemma lstrip_app_not_all (y z : pystr) :
  forallb is_space y = false -> lstrip (y ++ z) = lstrip y ++ z.
Proof.
  induction y as [|a y IH]; simpl; [discriminate|].
  destruct (is_space a); simpl; auto.
Qed.

Lemma lstrip_app_all (y z : pystr) :
  forallb is_space y = true -> lstrip (y ++ z) = lstrip z.
Proof.
  induction y as [|a y IH]; simpl; [reflexivity|].
  intros H. apply andb_prop in H as [Ha Hy]. rewrite Ha. auto.
Qed.

Lemma forallb_rev {A} (f : A -> bool) (l : list A) : forallb f (rev l) = forallb f l.
Proof.
  induction l as [|a l IH]; simpl; [reflexivity|].
  rewrite forallb_app, IH. simpl. rewrite andb_true_r, andb_comm. reflexivity.
Qed.

Lemma rstrip_cons (c : ascii) (x : pystr) :
  rstrip (c :: x) =
  if forallb is_space x then (if is_space c then [] else [c]) else c :: rstrip x.
Proof.
  unfold rstrip. simpl.
  destruct (forallb is_space x) eqn:Hx.
  - rewrite lstrip_app_all by (rewrite forallb_rev; exact Hx). simpl.
    destruct (is_space c); reflexivity.
  - rewrite lstrip_app_not_all by (rewrite forallb_rev; exact Hx).
    rewrite rev_app_distr. reflexivity.
Qed.

Lemma lstrip_rstrip (s : pystr) : lstrip (rstrip s) = rstrip (lstrip s).
Proof.
  induction s as [|c x IH]; [reflexivity|].
  rewrite rstrip_cons. simpl.
  destruct (forallb is_space x) eqn:Hx; destruct (is_space c) eqn:Hc; simpl.
  - rewrite (lstrip_all_space x Hx). reflexivity.
  - rewrite Hc, rstrip_cons, Hx, Hc. reflexivity.
  - rewrite Hc. exact IH.
  - rewrite Hc, rstrip_cons, Hx. reflexivity.
Qed.

Lemma lstrip_idem (s : pystr) : lstrip (lstrip s) = lstrip s.
Proof.
  induction s as [|c x IH]; simpl; [reflexivity|].
  destruct (is_space c) eqn:Hc; [exact IH|]. simpl. rewrite Hc. reflexivity.
Qed.

Lemma rstrip_idem (s : pystr) : rstrip (rstrip s) = rstrip s.
Proof. unfold rstrip. rewrite rev_involutive, lstrip_idem. reflexivity. Qed.

Lemma strip_lstrip (s : pystr) : strip (lstrip s) = strip s.
Proof. unfold strip. rewrite lstrip_idem. reflexivity. Qed.

Lemma strip_rstrip (s : pystr) : strip (rstrip s) = strip s.
Proof. unfold strip. rewrite <- lstrip_rstrip, rstrip_idem, lstrip_rstrip. reflexivity. Qed.

Lemma rstrip_app_nonspace (y z : pystr) (c : ascii) :
  is_space c = false -> rstrip (y ++ c :: z) = y ++ c :: rstrip z.
Proof.
  intros Hc. unfold rstrip.
  rewrite rev_app_distr. simpl. rewrite <- app_assoc. simpl.
  rewrite lstrip_app_nonspace by exact Hc.
  rewrite rev_app_distr. simpl. rewrite rev_involutive, <- app_assoc. reflexivity.
Qed.

Lemma strip_around (y z : pystr) (c : ascii) :
  is_space c = false -> strip (y ++ c :: z) = lstrip y ++ c :: rstrip z.
Proof.
  intros Hc. unfold strip.
  rewrite lstrip_app_nonspace, rstrip_app_nonspace by exact Hc. reflexivity.
Qed.

Lemma in_lstrip (x : ascii) (s : pystr) : In x (lstrip s) -> In x s.
Proof.
  induction s as [|c t IH]; simpl; [auto|].
  destruct (is_space c); simpl; auto.
Qed.

Lemma in_strip (x : ascii) (s : pystr) : In x (strip s) -> In x s.
Proof.
  unfold strip, rstrip. intros H.
  apply in_rev in H. apply in_lstrip in H. apply in_rev in H. apply in_lstrip in H.
  exact H.
Qed.

Lemma no_lead_lstrip (s : pystr) : no_lead (lstrip s) = true.
Proof.
  induction s as [|c t IH]; simpl; [reflexivity|].
  destruct (is_space c) eqn:Hc; [exact IH|]. simpl. rewrite Hc. reflexivity.
Qed.

Lemma no_lead_strip (s : pystr) : no_lead (strip s) = true.
Proof. unfold strip. rewrite <- lstrip_rstrip. apply no_lead_lstrip. Qed.

Lemma no_trail_strip (s : pystr) : no_trail (strip s) = true.
Proof. unfold no_trail, strip, rstrip. rewrite rev_involutive. apply no_lead_lstrip. Qed.

Lemma lstrip_no_lead (s : pystr) : no_lead s = true -> lstrip s = s.
Proof.
  destruct s as [|c t]; simpl; [reflexivity|].
  intros H. apply negb_true_iff in H. rewrite H. reflexivity.
Qed.

Lemma strip_clean (s : pystr) : no_lead s = true -> no_trail s = true -> strip s = s.
Proof.
  intros Hl Ht. unfold strip, rstrip. rewrite (lstrip_no_lead s Hl).
  rewrite (lstrip_no_lead (rev s) Ht). apply rev_involutive.
Qed.

Lemma has_char_false (c : ascii) (s : pystr) : has_char c s = false <-> ~ In c s.
Proof.
  unfold has_char. split.
  - intros H Hin. assert (existsb (Ascii.eqb c) s = true) as E.
    { apply existsb_exists. exists c. split; [exact Hin | apply Ascii.eqb_refl]. }
    congruence.
  - intros H. destruct (existsb (Ascii.eqb c) s) eqn:E; [|reflexivity].
    apply existsb_exists in E as [x [Hx Hcx]]. apply Ascii.eqb_eq in Hcx. subst. contradiction.
Qed.

Lemma split_on_nonempty (sep : ascii) (s : pystr) : split_on sep s <> [].
Proof.
  destruct s as [|c t]; simpl; [discriminate|].
  destruct (Ascii.eqb c sep); [discriminate|]. destruct (split_on sep t); discriminate.
Qed.

Lemma split_on_cons_other (sep c : ascii) (t : pystr) h r :
  Ascii.eqb c sep = false -> split_on sep t = h :: r ->
  split_on sep (c :: t) = (c :: h) :: r.
Proof. intros Hc Ht. simpl. rewrite Hc, Ht. reflexivity. Qed.

Lemma split_on_app_sep (sep : ascii) (x y : pystr) :
  ~ In sep x -> split_on sep (x ++ sep :: y) = x :: split_on sep y.
Proof.
  induction x as [|c x IH]; intros Hx; simpl.
  - rewrite Ascii.eqb_refl. reflexivity.
  - destruct (Ascii.eqb c sep) eqn:E.
    + apply Ascii.eqb_eq in E. subst. exfalso. apply Hx. left. reflexivity.
    + rewrite IH by (intros H; apply Hx; right; exact H). reflexivity.
Qed.

Lemma split_on_no_sep (sep : ascii) (x : pystr) : ~ In sep x -> split_on sep x = [x].
Proof.
  induction x as [|c x IH]; intros Hx; simpl; [reflexivity|].
  destruct (Ascii.eqb c sep) eqn:E.
  - apply Ascii.eqb_eq in E. subst. exfalso. apply Hx. left. reflexivity.
  - rewrite IH by (intros H; apply Hx; right; exact H). reflexivity.
Qed.

Lemma split_on_pieces (sep : ascii) (s seg : pystr) :
  In seg (split_on sep s) -> ~ In sep seg.
Proof.
  revert seg. induction s as [|c t IH]; intros seg; simpl.
  - intros [<- | []]. simpl. auto.
  - destruct (Ascii.eqb c sep) eqn:E.
    + intros [<- | H]; [simpl; auto | exact (IH _ H)].
    + destruct (split_on sep t) as [|h r] eqn:Ht; [exfalso; exact (split_on_nonempty _ _ Ht)|].
      intros [<- | H].
      * intros [Hc | Hh].
        -- subst. rewrite Ascii.eqb_refl in E. discriminate.
        -- apply (IH h); [left; reflexivity | exact Hh].
      * apply IH. right. exact H.
Qed.

Lemma split_once_at (sep : ascii) (x y : pystr) :
  ~ In sep x -> split_once sep (x ++ sep :: y) = [x; y].
Proof.
  induction x as [|c x IH]; intros Hx; simpl.
  - rewrite Ascii.eqb_refl. reflexivity.
  - destruct (Ascii.eqb c sep) eqn:E.
    + apply Ascii.eqb_eq in E. subst. exfalso. apply Hx. left. reflexivity.
    + rewrite IH by (intros H; apply Hx; right; exact H). reflexivity.
Qed.

Lemma split_once_no_sep (sep : ascii) (x : pystr) : ~ In sep x -> split_once sep x = [x].
Proof.
  induction x as [|c x IH]; intros Hx; simpl; [reflexivity|].
  destruct (Ascii.eqb c sep) eqn:E.
  - apply Ascii.eqb_eq in E. subst. exfalso. apply Hx. left. reflexivity.
  - rewrite IH by (intros H; apply Hx; right; exact H). reflexivity.
Qed.

Lemma break_at_spec (c : ascii) (s : pystr) :
  has_char c s = true ->
  let '(a, b) := break_at c s in s = a ++ c :: b /\ ~ In c a.
Proof.
  unfold has_char. induction s as [|x t IH]; simpl; [discriminate|].
  destruct (Ascii.eqb x c) eqn:E.
  - intros _. apply Ascii.eqb_eq in E. subst. split; [reflexivity | simpl; auto].
  - intros H. rewrite Ascii.eqb_sym, E in H. simpl in H.
    destruct (break_at c t) as [a b]. destruct (IH H) as [-> Ha].
    split; [reflexivity|]. intros [Hx | Hx]; [subst; rewrite Ascii.eqb_refl in E; discriminate | auto].
Qed.

Lemma break_at_app (c : ascii) (a b : pystr) : ~ In c a -> break_at c (a ++ c :: b) = (a, b).
Proof.
  induction a as [|x a IH]; intros Ha; simpl.
  - rewrite Ascii.eqb_refl. reflexivity.
  - destruct (Ascii.eqb x c) eqn:E.
    + apply Ascii.eqb_eq in E. subst. exfalso. apply Ha. left. reflexivity.
    + rewrite IH by (intros H; apply Ha; right; exact H). reflexivity.
Qed.

Lemma break_at_fst_no_sep (c : ascii) (s : pystr) : ~ In c (fst (break_at c s)).
Proof.
  induction s as [|x t IH]; simpl; [auto|].
  destruct (Ascii.eqb x c) eqn:E; simpl; [auto|].
  destruct (break_at c t) as [a b]. simpl in *.
  intros [Hx | Hx]; [subst; rewrite Ascii.eqb_refl in E; discriminate | auto].
Qed.

Lemma in_break_at_snd (x c : ascii) (s : pystr) : In x (snd (break_at c s)) -> In x s.
Proof.
  induction s as [|y t IH]; simpl; [auto|].
  destruct (Ascii.eqb y c); simpl; [auto|].
  destruct (break_at c t) as [a b]. simpl in *. auto.
Qed.

Lemma in_break_at_fst (x c : ascii) (s : pystr) : In x (fst (break_at c s)) -> In x s.
Proof.
  induction s as [|y t IH]; simpl; [auto|].
  destruct (Ascii.eqb y c); simpl; [tauto|].
  destruct (break_at c t) as [a b]. simpl in *. intros [H | H]; auto.
Qed.

End PyStrFacts.

(** ** Cookie codec *)
Module CodecFacts.
Import PyStrFacts.

Lemma is_space_eq : is_space "=" = false.
Proof. reflexivity. Qed.

Lemma is_space_blank : is_space " " = true.
Proof. reflexivity. Qed.

(** One segment of [parse_cookies]: kept exactly when it holds a [=]. *)
Lemma parse_segment (seg : pystr) :
  match split_once "=" (strip seg) with
  | [p0; p1] => Some (zeabur_cookie (strip p0) (strip p1))
  | _ => None
  end = if has_char "=" seg then Some (segment_cookie seg) else None.
Proof.
  destruct (has_char "=" seg) eqn:Hh.
  - pose proof (break_at_spec "=" seg Hh) as Hb.
    unfold segment_cookie.
    destruct (break_at "=" seg) as [a b] eqn:Eb. destruct Hb as [Hseg Ha].
    rewrite Hseg, (strip_around a b "=" is_space_eq).
    rewrite split_once_at by (intros H; apply Ha; apply in_lstrip; exact H).
    rewrite strip_lstrip, strip_rstrip. reflexivity.
  - apply has_char_false in Hh.
    rewrite split_once_no_sep by (intros H; apply Hh; apply in_strip; exact H).
    reflexivity.
Qed.

Lemma parse_loop_segments (segs : list pystr) (acc : list cookie) :
  parse_loop segs acc = acc ++ map segment_cookie (filter (has_char "=") segs).
Proof.
  revert acc. induction segs as [|seg rest IH]; intros acc; simpl.
  - rewrite app_nil_r. reflexivity.
  - pose proof (parse_segment seg) as Hs.
    destruct (split_once "=" (strip seg)) as [|p0 [|p1 [|p2 r]]];
      destruct (has_char "=" seg); try discriminate; simpl.
    + rewrite IH. reflexivity.
    + rewrite IH. reflexivity.
    + injection Hs as <-. rewrite IH, <- app_assoc. reflexivity.
    + rewrite IH. reflexivity.
Qed.

Lemma parse_cookies_segments (s : pystr) :
  parse_cookies s = map segment_cookie (filter (has_char "=") (split_on ";" s)).
Proof. unfold parse_cookies. rewrite parse_loop_segments. reflexivity. Qed.

Lemma join_cons_cons (p q : pystr) (ps : list pystr) :
  join (lit "; ") (p :: q :: ps) = p ++ ";"%char :: " "%char :: join (lit "; ") (q :: ps).
Proof. reflexivity. Qed.

Lemma split_join (ps : list pystr) (p : pystr) :
  ~ In ";"%char p -> Forall (fun q => ~ In ";"%char q) ps ->
  split_on ";" (join (lit "; ") (p :: ps)) = p :: map (fun q => " "%char :: q) ps.
Proof.
  revert p. induction ps as [|q ps IH]; intros p Hp Hps.
  - simpl. rewrite app_nil_r. apply split_on_no_sep. exact Hp.
  - inversion Hps as [|? ? Hq Hrest]; subst.
    rewrite join_cons_cons, split_on_app_sep by exact Hp.
    rewrite (split_on_cons_other ";" " " _ q (map (fun q => " "%char :: q) ps))
      by (reflexivity || (apply IH; assumption)).
    reflexivity.
Qed.

Ltac unpack_safe H :=
  unfold header_safe in H; repeat rewrite andb_true_iff in H;
  let H1 := fresh in let H2 := fresh in let H3 := fresh in let H4 := fresh in
  let H5 := fresh in let H6 := fresh in let H7 := fresh in
  destruct H as [[[[[[H1 H2] H3] H4] H5] H6] H7];
  rewrite negb_true_iff, has_char_false in H1, H2, H5.

Lemma name_value_shape (c : cookie) : name_value c = name c ++ "="%char :: value c.
Proof. reflexivity. Qed.

Lemma segment_cookie_safe (c : cookie) :
  header_safe c = true ->
  segment_cookie (name_value c) = zeabur_cookie (name c) (value c) /\
  segment_cookie (" "%char :: name_value c) = zeabur_cookie (name c) (value c).
Proof.
  intros H. unpack_safe H. unfold segment_cookie. rewrite name_value_shape.
  split.
  - rewrite break_at_app by assumption.
    rewrite !strip_clean by assumption. reflexivity.
  - change (" "%char :: name c ++ "="%char :: value c)
      with ((" "%char :: name c) ++ "="%char :: value c).
    rewrite break_at_app by (intros [E | E]; [discriminate | contradiction]).
    replace (strip (" "%char :: name c)) with (strip (name c)) by reflexivity.
    rewrite !strip_clean by assumption. reflexivity.
Qed.

Lemma has_eq_name_value (c : cookie) (pre : pystr) :
  has_char "=" (pre ++ name_value c) = true.
Proof.
  unfold has_char. apply existsb_exists. exists "="%char.
  split; [|apply Ascii.eqb_refl].
  apply in_or_app. right. rewrite name_value_shape. apply in_or_app. right. left. reflexivity.
Qed.

Lemma has_eq_nv (c : cookie) : has_char "=" (name_value c) = true.
Proof. exact (has_eq_name_value c []). Qed.

Lemma has_eq_nv_blank (c : cookie) : has_char "=" (" "%char :: name_value c) = true.
Proof. exact (has_eq_name_value c [" "%char]). Qed.

Lemma filter_all {A} (f : A -> bool) (l : list A) : forallb f l = true -> filter f l = l.
Proof.
  induction l as [|a l IH]; simpl; [reflexivity|].
  intros H. apply andb_prop in H as [Ha Hl]. rewrite Ha, IH by exact Hl. reflexivity.
Qed.

Lemma filter_idem {A} (f : A -> bool) (l : list A) : filter f (filter f l) = filter f l.
Proof.
  apply filter_all, forallb_forall. intros x Hx. apply filter_In in Hx as [_ Hx]. exact Hx.
Qed.

Lemma no_semicolon_name_value (c : cookie) :
  header_safe c = true -> ~ In ";"%char (name_value c).
Proof.
  intros H. unpack_safe H. rewrite name_value_shape.
  intros Hin. apply in_app_or in Hin as [Hin | [E | Hin]]; [auto | discriminate | auto].
Qed.

(** Encoding records the header syntax can carry and decoding gives them
    back, with the target domain and root path. *)
Lemma parse_format_safe (rs : list cookie) :
  forallb (fun c => domain_matches c && header_safe c) rs = true ->
  parse_cookies (format_cookies rs) = map (fun c => zeabur_cookie (name c) (value c)) rs.
Proof.
  intros H.
  assert (Hd : forallb domain_matches rs = true).
  { rewrite forallb_forall in *. intros c Hc. specialize (H c Hc).
    apply andb_prop in H as [H _]. exact H. }
  assert (Hs : forall c, In c rs -> header_safe c = true).
  { rewrite forallb_forall in H. intros c Hc. specialize (H c Hc).
    apply andb_prop in H as [_ H]. exact H. }
  unfold format_cookies. rewrite (filter_all _ _ Hd).
  destruct rs as [|r rs]; [reflexivity|].
  rewrite parse_cookies_segments.
  change (map name_value (r :: rs)) with (name_value r :: map name_value rs).
  rewrite split_join.
  2: { apply no_semicolon_name_value. apply Hs. left. reflexivity. }
  2: { apply Forall_forall. intros q Hq. apply in_map_iff in Hq as [c [<- Hc]].
       apply no_semicolon_name_value. apply Hs. right. exact Hc. }
  simpl filter. rewrite (has_eq_nv r). simpl map.
  destruct (segment_cookie_safe r (Hs r (or_introl eq_refl))) as [-> _].
  f_equal.
  assert (Hs' : forall c, In c rs -> header_safe c = true) by (intros c Hc; apply Hs; right; exact Hc).
  clear H Hd Hs. induction rs as [|c rs IH]; [reflexivity|].
  cbn [map filter]. rewrite (has_eq_nv_blank c). cbn [map].
  destruct (segment_cookie_safe c (Hs' c (or_introl eq_refl))) as [_ ->].
  f_equal. apply IH. intros c' Hc'. apply Hs'. right. exact Hc'.
Qed.

(** Every record [parse_cookies] builds is header-safe. *)
Lemma segment_cookie_header_safe (seg : pystr) :
  ~ In ";"%char seg -> header_safe (segment_cookie seg) = true.
Proof.
  intros Hseg. unfold segment_cookie.
  pose proof (break_at_fst_no_sep "=" seg) as Ha.
  pose proof (in_break_at_fst ";" "=" seg) as Ha'.
  pose proof (in_break_at_snd ";" "=" seg) as Hb'.
  destruct (break_at "=" seg) as [a b]. simpl in *.
  unfold header_safe, zeabur_cookie. simpl.
  rewrite !no_lead_strip, !no_trail_strip.
  assert (has_char ";" (strip a) = false) as E1
    by (apply has_char_false; intros H; apply Hseg, Ha', in_strip, H).
  assert (has_char "=" (strip a) = false) as E2
    by (apply has_char_false; intros H; apply Ha, in_strip, H).
  assert (has_char ";" (strip b) = false) as E3
    by (apply has_char_false; intros H; apply Hseg, Hb', in_strip, H).
  rewrite E1, E2, E3. reflexivity.
Qed.

Lemma parse_cookies_in (s : pystr) (c : cookie) :
  In c (parse_cookies s) ->
  exists seg, In seg (split_on ";" s) /\ c = segment_cookie seg.
Proof.
  rewrite parse_cookies_segments. intros H.
  apply in_map_iff in H as [seg [<- Hseg]]. apply filter_In in Hseg as [Hseg _].
  exists seg. split; [exact Hseg | reflexivity].
Qed.

Lemma segment_cookie_target (seg : pystr) :
  exists n v, segment_cookie seg = zeabur_cookie n v.
Proof.
  unfold segment_cookie. destruct (break_at "=" seg) as [a b]. eexists _, _. reflexivity.
Qed.

Lemma zeabur_cookie_matches (n v : pystr) : domain_matches (zeabur_cookie n v) = true.
Proof. reflexivity. Qed.

End CodecFacts.

(** * Claims *)
Import PyStrFacts CodecFacts.

(** ** Codec claims *)

(** C5 (counterexample): a record of the target domain whose value holds
    [;] does not come back from [parse_cookies (format_cookies _)]: the
    name/value pair sets differ. *)
Lemma codec_roundtrip_counterexample :
  let rs := [mk_cookie (lit "a") (lit "b;c") (Some TARGET_DOMAIN) (Some (lit "/"))] in
  forallb domain_matches rs = true /\
  ~ (forall p, In p (name_value_pairs (parse_cookies (format_cookies rs)))
               <-> In p (name_value_pairs rs)).
Proof.
  cbv zeta. split; [reflexivity|].
  intros H. destruct (H (lit "a", lit "b;c")) as [_ H2].
  specialize (H2 (or_introl eq_refl)).
  vm_compute in H2. destruct H2 as [E | []]. discriminate E.
Qed.

(** C5 (amended): for records of the target domain whose names hold no [;]
    and no [=], whose values hold no [;], and whose names and values carry
    no leading or trailing whitespace, decoding the encoding gives back the
    same name/value pairs, in the same order (so the same set). *)
Theorem codec_roundtrip_header_safe (rs : list cookie)
  (Hrs : forallb (fun c => domain_matches c && header_safe c) rs = true) :
  name_value_pairs (parse_cookies (format_cookies rs)) = name_value_pairs rs.
Proof.
  rewrite (parse_format_safe rs Hrs). unfold name_value_pairs.
  rewrite map_map. reflexivity.
Qed.

Lemma codec_roundtrip_header_safe_witness :
  forallb (fun c => domain_matches c && header_safe c)
    [mk_cookie (lit "sid") (lit "x=1") (Some (lit "zeabur.com")) None;
     mk_cookie (lit "tok") (lit "") (Some TARGET_DOMAIN) (Some (lit "/"))] = true /\
  name_value_pairs (parse_cookies (format_cookies
    [mk_cookie (lit "sid") (lit "x=1") (Some (lit "zeabur.com")) None;
     mk_cookie (lit "tok") (lit "") (Some TARGET_DOMAIN) (Some (lit "/"))]))
  = [(lit "sid", lit "x=1"); (lit "tok", lit "")].
Proof.
  split; [vm_compute; reflexivity|].
  apply (codec_roundtrip_header_safe
    [mk_cookie (lit "sid") (lit "x=1") (Some (lit "zeabur.com")) None;
     mk_cookie (lit "tok") (lit "") (Some TARGET_DOMAIN) (Some (lit "/"))]).
  vm_compute. reflexivity.
Defined.

(** C6: a record whose domain does not contain ["zeabur.com"] contributes
    nothing to [format_cookies]: removing it leaves the output unchanged,
    and the output is that of the matching records alone. *)
Theorem format_cookies_drops_foreign (l1 l2 : list cookie) (r : cookie)
  (Hr : domain_matches r = false) :
  format_cookies (l1 ++ r :: l2) = format_cookies (l1 ++ l2) /\
  format_cookies (l1 ++ r :: l2) = format_cookies (filter domain_matches (l1 ++ l2)).
Proof.
  unfold format_cookies. rewrite !filter_app. simpl. rewrite Hr.
  split; [reflexivity|].
  rewrite !filter_idem. reflexivity.
Qed.

Lemma format_cookies_drops_foreign_witness :
  domain_matches (mk_cookie (lit "x") (lit "1") (Some (lit ".example.com")) None) = false /\
  format_cookies [mk_cookie (lit "a") (lit "1") (Some TARGET_DOMAIN) None;
                  mk_cookie (lit "x") (lit "1") (Some (lit ".example.com")) None]
  = format_cookies [mk_cookie (lit "a") (lit "1") (Some TARGET_DOMAIN) None].
Proof.
  split; [vm_compute; reflexivity|].
  exact (proj1 (format_cookies_drops_foreign
    [mk_cookie (lit "a") (lit "1") (Some TARGET_DOMAIN) None] []
    (mk_cookie (lit "x") (lit "1") (Some (lit ".example.com")) None)
    ltac:(vm_compute; reflexivity))).
Defined.

(** C7: [parse_cookies] is total; the segments of the input split on [;]
    that hold no [=] (empty ones included) are dropped, and every other
    segment gives one record, in order: the stripped text before its first
    [=] as name and the stripped rest as value. *)
Theorem parse_cookies_drops_malformed (s : pystr) :
  parse_cookies s = map segment_cookie (filter (has_char "=") (split_on ";" s)).
Proof. apply parse_cookies_segments. Qed.

(** C10: every record of [parse_cookies] has domain [.zeabur.com] and path
    [/]; [format_cookies] filters none of them out; and encode after decode
    is idempotent. *)
Theorem decode_domain_invariant (s : pystr) :
  Forall (fun c => domain c = Some TARGET_DOMAIN /\ path c = Some (lit "/")) (parse_cookies s) /\
  filter domain_matches (parse_cookies s) = parse_cookies s /\
  format_cookies (parse_cookies (format_cookies (parse_cookies s)))
  = format_cookies (parse_cookies s).
Proof.
  assert (Hz : forall c, In c (parse_cookies s) -> exists n v, c = zeabur_cookie n v).
  { intros c Hc. apply parse_cookies_in in Hc as [seg [_ ->]].
    apply segment_cookie_target. }
  split; [|split].
  - apply Forall_forall. intros c Hc. destruct (Hz c Hc) as [n [v ->]].
    split; reflexivity.
  - apply filter_all, forallb_forall. intros c Hc. destruct (Hz c Hc) as [n [v ->]].
    apply zeabur_cookie_matches.
  - f_equal. rewrite parse_format_safe.
    + rewrite <- (map_id (parse_cookies s)) at 2. apply map_ext_in.
      intros c Hc. destruct (Hz c Hc) as [n [v ->]]. reflexivity.
    + apply forallb_forall. intros c Hc.
      apply parse_cookies_in in Hc as [seg [Hseg ->]].
      destruct (segment_cookie_target seg) as [n [v Hnv]].
      rewrite segment_cookie_header_safe by (exact (split_on_pieces _ _ _ Hseg)).
      rewrite Hnv, zeabur_cookie_matches. reflexivity.
Qed.

(** ** Cookie login *)
Module ValidatorFacts.

Arguments lit : simpl never.

Lemma replay_app (o : list page) (t1 t2 : list event) :
  replay_pages o (t1 ++ t2) =
  match replay_pages o t1 with Some o' => replay_pages o' t2 | None => None end.
Proof.
  revert o. induction t1 as [|e t1 IH]; intros o; simpl; [reflexivity|].
  destruct (page_step o e); [apply IH | reflexivity].
Qed.

Lemma beats_app (t1 t2 : list event) : beats (t1 ++ t2) = beats t1 ++ beats t2.
Proof.
  induction t1 as [|e t1 IH]; simpl; [reflexivity|].
  destruct e; simpl; rewrite ?IH; reflexivity.
Qed.

Ltac unfold_monad :=
  cbv beta iota zeta delta [bind ret emit new_page try_except goto bump_nav set_url
                            page_url close_page raise context_add_cookies];
  cbn [next_page open_pages page_urls nav_count trace url_lookup].

Ltac newpage_bound Hlt :=
  let q := fresh "q" in let Hq := fresh "Hq" in
  intros q Hq; cbn [trace next_page] in *; rewrite !in_app_iff in Hq; simpl in Hq;
  repeat match type of Hq with _ \/ _ => destruct Hq as [Hq | Hq] end;
  first [ apply Hlt in Hq; lia | injection Hq as <-; lia | discriminate | contradiction ].

Ltac fail_step n a mr s IH Hopen Hrep Hlt :=
    destruct n as [|n'];
    [ (* last attempt: no sleep *)
      assert (Hlast : (a <? mr) = false) by (apply Nat.ltb_ge; lia);
      rewrite Hlast; simpl;
      eexists _, None, 1; split; [reflexivity|];
      split; [split|];
      [ cbn [trace open_pages]; rewrite !replay_app, Hrep, Hopen; simpl; rewrite Nat.eqb_refl; reflexivity
      | newpage_bound Hlt
      | simpl; rewrite !beats_app; simpl; rewrite !app_nil_r;
        split; [reflexivity|]; split; [lia|]; split; [lia|];
        split; [intros j Hj _; replace j with a by lia; assumption|];
        split; [reflexivity|]; rewrite Hopen; simpl; rewrite Nat.eqb_refl; reflexivity ]
    | (* retry after a sleep *)
      assert (Hmore : (a <? mr) = true) by (apply Nat.ltb_lt; lia);
      rewrite Hmore; cbv beta iota zeta;
      match goal with
      | |- context [attempt_loop _ _ (seq (S a) (S n')) ?st] =>
          destruct (IH (S a) st) as (s' & r & k & Hrun & Hinv' & Hbeats & Hk & Hnext & Hfails & Hr);
          [ lia | simpl; rewrite Hopen; simpl; rewrite Nat.eqb_refl; reflexivity | reflexivity
          | split;
            [ simpl; rewrite !replay_app, Hrep, Hopen; simpl; rewrite Nat.eqb_refl; reflexivity
            | newpage_bound Hlt ] | ];
          assert (Hk1 : 1 <= k) by (destruct r; [apply Hr | lia]);
          exists s', r, (S k); split; [exact Hrun|]; split; [exact Hinv'|];
          split;
          [ rewrite Hbeats; simpl; rewrite !beats_app; simpl;
            destruct k as [|k']; [lia|]; simpl; rewrite <- !app_assoc; simpl;
            replace (a + 1 + (a + 1 + (a + 1 + (a + 1 + (a + 1 + 0))))) with (5 * S a) by lia;
            reflexivity
          | ];
          split; [lia|]; split; [simpl in Hnext; lia|];
          split;
          [ intros j Hj Hor; destruct (Nat.eq_dec j a) as [->|Hja]; [assumption|];
            apply Hfails; [lia|]; destruct Hor as [Hor|Hor]; [left; exact Hor | right; lia]
          | ];
          destruct r as [p|];
          [ destruct Hr as (_ & Hp & Ho & u' & Hu1 & Hu2 & Hu3);
            split; [lia|]; split; [simpl in Hp; lia|]; split; [exact Ho|];
            exists u'; replace (a + S k - 1) with (S a + k - 1) by lia; auto
          | destruct Hr as [Hkn Ho]; split; [lia | exact Ho] ]
      end ].

Lemma attempt_loop_spec (b : browser) (mr n : nat) : forall a s,
  a + n = S mr -> open_pages s = [] -> nav_count s = a -> Inv s ->
  exists s' r k,
    attempt_loop b mr (seq a n) s = (s', PRet r) /\ Inv s' /\
    beats (trace s') = beats (trace s) ++ schedule_from a k /\
    k <= n /\ next_page s' = next_page s + k /\
    (forall j, a <= j < a + k -> (r = None \/ j < a + k - 1) -> attempt_fails (nav b j) = true) /\
    match r with
    | Some p => 1 <= k /\ p = next_page s + (k - 1) /\ open_pages s' = [p] /\
                exists u, nav b (a + k - 1) = NavUrl u /\
                          contains (lit "/login") u = false /\ url_lookup p (page_urls s') = u
    | None => k = n /\ open_pages s' = []
    end.
Proof.
  induction n as [|n IH]; intros a s Hn Hopen Hnav Hinv.
  - exists s, None, 0. simpl. rewrite Nat.add_0_r, app_nil_r.
    repeat split; auto; try lia. apply Hinv. apply Hinv.
  - destruct Hinv as [Hrep Hlt].
    cbn [seq attempt_loop]. unfold_monad. rewrite Hnav.
    destruct (nav b a) as [u|] eqn:Hna; simpl; rewrite ?Nat.eqb_refl.
    + destruct (contains (lit "/login") u) eqn:Hc; simpl.
      * (* redirected to the login page *)
        assert (Hfa : attempt_fails (nav b a) = true) by (rewrite Hna; exact Hc).
        fail_step n a mr s IH Hopen Hrep Hlt.

      * (* authenticated *)
        eexists _, (Some (next_page s)), 1. split; [reflexivity|].
        split; [split|].
        { cbn [trace open_pages]. rewrite !replay_app, Hrep, Hopen. simpl. reflexivity. }
        { newpage_bound Hlt. }
        simpl. rewrite !beats_app, Hopen. simpl. rewrite !app_nil_r.
        split; [reflexivity|]. split; [lia|]. split; [lia|].
        split; [intros j Hj [E | E]; [discriminate | lia]|].
        split; [lia|]. split; [lia|]. split; [reflexivity|].
        exists u. replace (a + 1 - 1) with a by lia.
        split; [exact Hna|]. split; [exact Hc|]. simpl. rewrite Nat.eqb_refl. reflexivity.
    + (* page.goto raised *)
      assert (Hfa : attempt_fails (nav b a) = true) by (rewrite Hna; reflexivity).
      fail_step n a mr s IH Hopen Hrep Hlt.
Qed.

Lemma login_spec_from (b : browser) (cs : pystr) (mr : nat) (s : state) :
  open_pages s = [] -> nav_count s = 0 -> Inv s ->
  let '(s', r) := login_with_cookie b cs mr s in
  Inv s' /\
  match r with
  | PRaise _ => add_cookies_ok b = false /\ beats (trace s') = beats (trace s)
  | PExit _ => False
  | PRet (p, true) =>
      add_cookies_ok b = true /\
      exists k, 1 <= k <= S mr /\ beats (trace s') = beats (trace s) ++ schedule_from 0 k /\
        p = next_page s + (k - 1) /\ open_pages s' = [p] /\
        (forall j, j < k - 1 -> attempt_fails (nav b j) = true) /\
        exists u, nav b (k - 1) = NavUrl u /\ contains (lit "/login") u = false /\
                  url_lookup p (page_urls s') = u
  | PRet (p, false) =>
      add_cookies_ok b = true /\ beats (trace s') = beats (trace s) ++ schedule_from 0 (S mr) /\
      (forall j, j <= mr -> attempt_fails (nav b j) = true) /\
      open_pages s' = [p] /\
      exists t, trace s' = t ++ [NewPage p] /\ (forall q, In (NewPage q) t -> q < p)
  end.
Proof.
  intros Hopen Hnav [Hrep Hlt].
  unfold login_with_cookie. unfold_monad.
  destruct (add_cookies_ok b) eqn:Hadd; cbv beta iota zeta.
  - match goal with
    | |- context [attempt_loop b mr (seq 0 (S mr)) ?st] =>
        destruct (attempt_loop_spec b mr (S mr) 0 st)
          as (s' & r & k & Hrun & [Hrep' Hlt'] & Hbeats & Hk & Hnext & Hfails & Hr);
        [ reflexivity | exact Hopen | exact Hnav
        | split; [cbn [trace open_pages]; rewrite !replay_app, Hrep; reflexivity
                 | newpage_bound Hlt] | ];
        rewrite Hrun
    end.
    cbn [trace next_page] in Hbeats, Hnext. rewrite !beats_app in Hbeats.
    simpl in Hbeats. rewrite !app_nil_r in Hbeats.
    destruct r as [p|]; cbv beta iota zeta.
    + split; [split; assumption|].
      destruct Hr as (Hk1 & Hp & Ho & u & Hu1 & Hu2 & Hu3).
      cbn [next_page] in Hp. simpl in Hu1.
      split; [reflexivity|]. exists k. split; [lia|]. split; [exact Hbeats|]. split; [exact Hp|].
      split; [exact Ho|]. split.
      * intros j Hj. apply Hfails; [lia | right; lia].
      * exists u. split; [exact Hu1|]. split; assumption.
    + destruct Hr as [-> Ho]. cbn [next_page open_pages page_urls nav_count trace].
      split; [split|].
      * cbn [next_page open_pages page_urls nav_count trace]. rewrite !replay_app, Hrep', Ho. simpl. reflexivity.
      * cbn [next_page open_pages page_urls nav_count trace]. intros q Hq. rewrite !in_app_iff in Hq. simpl in Hq.
        repeat match type of Hq with _ \/ _ => destruct Hq as [Hq | Hq] end;
        first [ apply Hlt' in Hq; lia | injection Hq as <-; lia | discriminate | contradiction ].
      * split; [reflexivity|]. split; [rewrite !beats_app, Hbeats; simpl; rewrite !app_nil_r; reflexivity|].
        split; [intros j Hj; apply Hfails; [lia | left; reflexivity]|].
        split; [rewrite Ho; reflexivity|].
        exists (trace s' ++ [Print (lit "cookie expired")]).
        split; [rewrite <- app_assoc; reflexivity|].
        intros q Hq. rewrite in_app_iff in Hq. simpl in Hq.
        destruct Hq as [Hq | [Hq | []]]; [apply Hlt'; exact Hq | discriminate].
  - split; [split|].
    + cbn [trace open_pages]. rewrite !replay_app, Hrep. reflexivity.
    + newpage_bound Hlt.
    + split; [reflexivity|]. cbn [trace]. rewrite !beats_app. simpl. rewrite !app_nil_r. reflexivity.
Qed.

Lemma fresh_state_inv : Inv fresh_state.
Proof. split; [reflexivity | intros q []]. Qed.

Lemma login_spec (b : browser) (cs : pystr) (mr : nat) :
  let '(s', r) := login_with_cookie b cs mr fresh_state in
  Inv s' /\
  match r with
  | PRaise _ => add_cookies_ok b = false /\ beats (trace s') = []
  | PExit _ => False
  | PRet (p, true) =>
      add_cookies_ok b = true /\
      exists k, 1 <= k <= S mr /\ beats (trace s') = schedule_from 0 k /\
        p = k - 1 /\ open_pages s' = [p] /\
        (forall j, j < k - 1 -> attempt_fails (nav b j) = true) /\
        exists u, nav b (k - 1) = NavUrl u /\ contains (lit "/login") u = false /\
                  url_lookup p (page_urls s') = u
  | PRet (p, false) =>
      add_cookies_ok b = true /\ beats (trace s') = schedule_from 0 (S mr) /\
      (forall j, j <= mr -> attempt_fails (nav b j) = true) /\
      open_pages s' = [p] /\
      exists t, trace s' = t ++ [NewPage p] /\ (forall q, In (NewPage q) t -> q < p)
  end.
Proof.
  pose proof (login_spec_from b cs mr fresh_state eq_refl eq_refl fresh_state_inv) as H.
  destruct (login_with_cookie b cs mr fresh_state) as [s' r].
  exact H.
Qed.

End ValidatorFacts.

(** ** Session validator claims *)
Import ValidatorFacts.

Lemma inv_one_page (s : state) : Inv s -> one_page_at_a_time (trace s) = true.
Proof. intros [H _]. unfold one_page_at_a_time. rewrite H. reflexivity. Qed.

(** C1: [login_with_cookie] returns [(page, True)] with the page of the
    first attempt whose resulting URL does not contain [/login], that page
    still open (the only open page); it returns [(_, False)] only when every
    attempt failed; and along the whole run a page is only opened when the
    previous one was closed, so a page redirected to the login page is
    closed before the next attempt opens its own. *)
Theorem login_classifies_by_url (b : browser) (cs : pystr) (mr : nat) :
  let '(s', r) := login_with_cookie b cs mr fresh_state in
  one_page_at_a_time (trace s') = true /\
  match r with
  | PRet (p, true) =>
      exists a u, a <= mr /\ nav b a = NavUrl u /\ contains (lit "/login") u = false /\
        (forall j, j < a -> attempt_fails (nav b j) = true) /\
        url_lookup p (page_urls s') = u /\ open_pages s' = [p]
  | PRet (p, false) => forall a, a <= mr -> attempt_fails (nav b a) = true
  | PRaise _ => add_cookies_ok b = false
  | PExit _ => False
  end.
Proof.
  pose proof (login_spec b cs mr) as H.
  destruct (login_with_cookie b cs mr fresh_state) as [s' r].
  destruct H as [Hinv Hr]. split; [apply inv_one_page; exact Hinv|].
  destruct r as [[p [|]] | e | c]; try exact Hr.
  - destruct Hr as (_ & k & Hk & _ & _ & Ho & Hf & u & Hu1 & Hu2 & Hu3).
    exists (k - 1), u. repeat split; auto; lia.
  - destruct Hr as (_ & _ & Hf & _). exact Hf.
  - destruct Hr as [Hr _]. exact Hr.
Qed.

(** C2: with the default [max_retries = 2], the attempts and sleeps of a
    run are [k <= 3] attempts with a sleep of [5 * n] seconds before retry
    [n] and no sleep before the first attempt or after the last. *)
Theorem login_backoff_default (b : browser) (cs : pystr) :
  let '(s', _) := login_with_cookie b cs DEFAULT_MAX_RETRIES fresh_state in
  exists k, k <= 3 /\ beats (trace s') = backoff_schedule k.
Proof.
  pose proof (login_spec b cs DEFAULT_MAX_RETRIES) as H.
  destruct (login_with_cookie b cs DEFAULT_MAX_RETRIES fresh_state) as [s' r].
  destruct H as [_ Hr].
  destruct r as [[p [|]] | e | c].
  - destruct Hr as (_ & k & Hk & Hb & _). exists k. split; [unfold DEFAULT_MAX_RETRIES in Hk; lia|].
    rewrite Hb. destruct k; reflexivity.
  - destruct Hr as (_ & Hb & _). exists 3. split; [lia|]. exact Hb.
  - destruct Hr as [_ Hb]. exists 0. split; [lia | exact Hb].
  - contradiction.
Qed.

(** C3: when [context.add_cookies] succeeds and every one of the
    [max_retries + 1] attempts fails, [login_with_cookie] performs all of
    them and returns [(page, False)] with a page opened after them: never
    opened before in the run, and open. *)
Theorem login_exhausted_returns_fresh_page (b : browser) (cs : pystr) (mr : nat)
  (Hadd : add_cookies_ok b = true)
  (Hfail : forall a, a <= mr -> attempt_fails (nav b a) = true) :
  let '(s', r) := login_with_cookie b cs mr fresh_state in
  exists p t, r = PRet (p, false) /\ open_pages s' = [p] /\
    trace s' = t ++ [NewPage p] /\ (forall q, In (NewPage q) t -> q < p) /\
    beats (trace s') = schedule_from 0 (S mr).
Proof.
  pose proof (login_spec b cs mr) as H.
  destruct (login_with_cookie b cs mr fresh_state) as [s' r].
  destruct H as [_ Hr].
  destruct r as [[p [|]] | e | c].
  - exfalso. destruct Hr as (_ & k & Hk & _ & _ & _ & _ & u & Hu1 & Hu2 & _).
    pose proof (Hfail (k - 1) ltac:(lia)) as Hf. rewrite Hu1 in Hf. simpl in Hf.
    congruence.
  - destruct Hr as (_ & Hb & _ & Ho & t & Ht & Hlt).
    exists p, t. repeat split; assumption.
  - destruct Hr as [Hr _]. congruence.
  - contradiction.
Qed.

Lemma login_exhausted_returns_fresh_page_witness :
  add_cookies_ok all_raise = true /\
  (forall a, a <= 2 -> attempt_fails (nav all_raise a) = true) /\
  let '(s', r) := login_with_cookie all_raise (lit "sid=1") 2 fresh_state in
  exists p t, r = PRet (p, false) /\ open_pages s' = [p] /\
    trace s' = t ++ [NewPage p] /\ (forall q, In (NewPage q) t -> q < p) /\
    beats (trace s') = schedule_from 0 3.
Proof.
  split; [reflexivity|]. split; [intros a _; reflexivity|].
  exact (login_exhausted_returns_fresh_page all_raise (lit "sid=1") 2
           eq_refl (fun a _ => eq_refl)).
Defined.

(** The scripted run [redirect, redirect, authenticated]: three attempts,
    sleeps of 5 then 10 seconds, success with the third page left open. *)
Example redirect_twice_run :
  let '(s', r) := login_with_cookie redirect_twice (lit "sid=1") DEFAULT_MAX_RETRIES fresh_state in
  r = PRet (2, true) /\
  beats (trace s') = [BAttempt; BSleep 5; BAttempt; BSleep 10; BAttempt] /\
  open_pages s' = [2].
Proof. vm_compute. split; [|split]; reflexivity. Qed.

(** ** Secret update, notifier and entry point *)
Import Secret Telegram Main.

Module RunFacts.

Lemma update_secret_spec (g : github) (token owner repo secret_name secret_value : pystr) (s : state) :
  let '(s', r) := update_github_secret g token owner repo secret_name secret_value s in
  next_page s' = next_page s /\ open_pages s' = open_pages s /\
  page_urls s' = page_urls s /\ nav_count s' = nav_count s /\
  (if http_ok (gh_get_status g) && key_usable g then
     exists ev kid, trace s' = trace s ++ [HttpGet (key_url owner repo);
                                           HttpPut (update_url owner repo secret_name) ev kid]
   else trace s' = trace s ++ [HttpGet (key_url owner repo)]) /\
  (r = PRet tt <-> secret_update_ok g = true) /\
  (forall c, r <> PExit c).
Proof.
  unfold update_github_secret, secret_update_ok, key_usable.
  cbv beta iota zeta delta [bind emit http_request raise_for_status raise ret http_ok].
  cbn [next_page open_pages page_urls nav_count trace].
  destruct (gh_get_status g) as [c|];
  [destruct ((400 <=? c)%Z && (c <? 600)%Z) eqn:Hc|];
  cbn [negb andb];
  try (destruct (gh_get_json g) as [kd|];
       [destruct (kb_key kd) as [[k|]|]; destruct (kb_key_id kd) as [kid|]|]; cbn [andb];
       try (destruct (Nat.eqb (List.length k) 32); cbn [negb andb]);
       try (destruct (gh_put_status g) as [c'|];
            [destruct ((400 <=? c')%Z && (c' <? 600)%Z)|]));
  cbn [next_page open_pages page_urls nav_count trace negb andb];
  rewrite <- ?app_assoc;
  (repeat split; try reflexivity; try discriminate; try (intros; discriminate); eauto; try (do 2 eexists; reflexivity)).
Qed.

Lemma send_message_spec (t : telegram) (bot_token chat_id message : pystr) (s : state) :
  let url := lit "https://api.telegram.org/bot" ++ bot_token ++ lit "/sendMessage" in
  let '(s', r) := send_telegram_message t bot_token chat_id message s in
  r = PRet (http_ok (tg_post t url)) /\
  trace s' = trace s ++
    HttpPost url [(lit "chat_id", chat_id); (lit "text", message); (lit "parse_mode", lit "HTML")]
    :: (if http_ok (tg_post t url) then [] else [Print (lit "telegram message failed")]).
Proof.
  unfold send_telegram_message, post.
  cbv beta iota zeta delta [try_except bind emit raise_for_status raise ret http_ok].
  cbn [trace].
  destruct (tg_post t _) as [c|];
  [destruct ((400 <=? c)%Z && (c <? 600)%Z)|]; cbn [trace negb];
  rewrite <- ?app_assoc; split; reflexivity.
Qed.

Lemma send_photo_spec (t : telegram) (bot_token chat_id photo_path caption : pystr) (s : state) :
  let url := lit "https://api.telegram.org/bot" ++ bot_token ++ lit "/sendPhoto" in
  let ok := tg_file_readable t photo_path && http_ok (tg_post t url) in
  let '(s', r) := send_telegram_photo t bot_token chat_id photo_path caption s in
  r = PRet ok /\
  trace s' = trace s ++ OpenFile photo_path ::
    (if tg_file_readable t photo_path then
       [HttpPost url [(lit "chat_id", chat_id); (lit "caption", caption); (lit "photo", photo_path)]]
     else []) ++
    (if ok then [] else [Print (lit "telegram photo failed")]).
Proof.
  unfold send_telegram_photo, open_file, post.
  cbv beta iota zeta delta [try_except bind emit raise_for_status raise ret http_ok].
  cbn [trace].
  destruct (tg_file_readable t photo_path); cbn [andb trace];
  [destruct (tg_post t _) as [c|];
   [destruct ((400 <=? c)%Z && (c <? 600)%Z)|]; cbn [trace negb]|];
  rewrite <- ?app_assoc; split; reflexivity.
Qed.

Lemma notify_spec (w : world) (bot_token chat_id : pystr) (logs : list pystr) (s : state) :
  let '(s', r) := notify_success w bot_token chat_id logs s in
  r = PRet tt /\
  In (HttpPost (lit "https://api.telegram.org/bot" ++ bot_token ++ lit "/sendMessage")
        [(lit "chat_id", chat_id); (lit "text", report (w_now w) logs);
         (lit "parse_mode", lit "HTML")]) (trace s') /\
  In (OpenFile SCREENSHOT_PATH) (trace s').
Proof.
  unfold notify_success. cbv beta iota zeta delta [bind emit].
  match goal with |- context [send_telegram_message ?t ?b ?c ?m ?st] =>
    pose proof (send_message_spec t b c m st) as H1; destruct (send_telegram_message t b c m st) as [s1 r1] end.
  cbv zeta in H1. destruct H1 as [-> T1].
  match goal with |- context [send_telegram_photo ?t ?b ?c ?p ?cap ?st] =>
    pose proof (send_photo_spec t b c p cap st) as H2; destruct (send_telegram_photo t b c p cap st) as [s2 r2] end.
  cbv zeta in H2. destruct H2 as [-> T2].
  match goal with |- context [if ?x then _ else _] => destruct x end; cbn [trace]; (split; [reflexivity|]);
  rewrite T2, T1; split; rewrite !in_app_iff; simpl; tauto.
Qed.

Lemma validation_true (b : browser) (a : nat) (u : pystr) :
  add_cookies_ok b = true -> a <= DEFAULT_MAX_RETRIES -> nav b a = NavUrl u ->
  contains (lit "/login") u = false -> validation_succeeds b = true.
Proof.
  intros Hadd Ha Hn Hc. unfold validation_succeeds. rewrite Hadd. cbn [andb].
  apply existsb_exists. exists a. split; [apply in_seq; unfold DEFAULT_MAX_RETRIES in *; lia|].
  rewrite Hn. simpl. rewrite Hc. reflexivity.
Qed.

Lemma validation_false (b : browser) :
  (forall a, a <= DEFAULT_MAX_RETRIES -> attempt_fails (nav b a) = true) ->
  validation_succeeds b = false.
Proof.
  intros Hf. unfold validation_succeeds. destruct (add_cookies_ok b); [|reflexivity]. cbn [andb].
  apply Bool.not_true_iff_false. intros Hex. apply existsb_exists in Hex as [a [Ha Hna]].
  apply in_seq in Ha. rewrite Hf in Hna by (unfold DEFAULT_MAX_RETRIES in *; lia). discriminate.
Qed.

Lemma tg_failure_exit (env : environ) (w : world) (msg note : pystr) (s : state) :
  snd ((emit (Print msg) ;;;
        (if truthy (TG_BOT_TOKEN env) && truthy (TG_CHAT_ID env) then
           _ <- send_telegram_message (w_telegram w) (the_str (TG_BOT_TOKEN env))
                  (the_str (TG_CHAT_ID env)) note ;; ret tt
         else ret tt) ;;;
        sys_exit 1) s) = @PExit unit 1%Z.
Proof.
  cbv beta iota zeta delta [bind emit ret sys_exit].
  destruct (_ && _); [|reflexivity].
  match goal with |- context [send_telegram_message ?t ?b ?c ?m ?st] =>
    pose proof (send_message_spec t b c m st) as H1; destruct (send_telegram_message t b c m st) as [s1 r1] end.
  cbv zeta in H1. destruct H1 as [-> _]. reflexivity.
Qed.

Ltac tail_tg :=
  match goal with
  | |- context [if ?on then notify_success ?w ?b ?c ?l else _] =>
      destruct on;
      [ match goal with |- context [notify_success ?w ?b ?c ?l ?st] =>
          pose proof (notify_spec w b c l st) as HN;
          destruct (notify_success w b c l st) as [s4 r4]; destruct HN as [-> _] end;
        reflexivity
      | reflexivity ]
  end.

Lemma body_result (env : environ) (w : world) (cookie_string : pystr) (s : state) :
  open_pages s = [] -> nav_count s = 0 -> Inv s ->
  match snd (main_body env w cookie_string s) with
  | PRet _ => validation_succeeds (w_browser w) && after_validation_ok env w = true
  | PExit c => c = 1%Z /\ validation_succeeds (w_browser w) = false
  | PRaise _ => validation_succeeds (w_browser w) && after_validation_ok env w = false
  end.
Proof.
  intros Hopen Hnav Hinv. unfold main_body. cbv zeta.
  pose proof (login_spec_from (w_browser w) cookie_string DEFAULT_MAX_RETRIES s Hopen Hnav Hinv) as HL.
  unfold bind at 1.
  destruct (login_with_cookie (w_browser w) cookie_string DEFAULT_MAX_RETRIES s) as [s1 r1].
  destruct HL as [_ HL].
  destruct r1 as [[p [|]] | e | c].
  - (* authenticated *)
    destruct HL as (Hadd & k & Hk & _ & _ & _ & _ & u & Hu1 & Hu2 & _).
    assert (Hv : validation_succeeds (w_browser w) = true).
    { eapply validation_true; [exact Hadd | | exact Hu1 | exact Hu2].
      unfold DEFAULT_MAX_RETRIES in *; lia. }
    rewrite Hv. cbn [negb andb]. unfold after_validation_ok.
    cbv beta iota zeta delta [bind emit screenshot context_cookies split_repo ret raise].
    destruct (w_screenshot_ok w); cbn [andb]; [|reflexivity].
    destruct (w_cookies w) as [cs|]; [|reflexivity].
    unfold publish_gate, repo_splits.
    destruct (truthy (REPO_TOKEN env) && nonempty (the_str (GITHUB_REPOSITORY env))
              && nonempty (format_cookies cs)); cbn [negb orb].
    + destruct (split_on "/" (the_str (GITHUB_REPOSITORY env))) as [|o [|n [|x y]]];
        cbv beta iota; try reflexivity.
      match goal with |- context [update_github_secret ?g ?t ?o ?r ?n ?v ?st] =>
        pose proof (update_secret_spec g t o r n v st) as HU;
        destruct (update_github_secret g t o r n v st) as [s3 r3] end.
      destruct HU as (_ & _ & _ & _ & _ & HR & HX).
      destruct r3 as [[]| e | c'].
      * rewrite (proj1 HR eq_refl). cbv beta iota. tail_tg.
      * destruct (secret_update_ok (w_github w)); [discriminate (proj2 HR eq_refl) | reflexivity].
      * exfalso; exact (HX c' eq_refl).
    + cbv beta iota. tail_tg.
  - (* every attempt failed *)
    destruct HL as (_ & _ & Hf & _).
    pose proof (validation_false (w_browser w) Hf) as Hv.
    cbv beta iota; cbn [negb]. rewrite tg_failure_exit. split; [reflexivity | exact Hv].
  - (* add_cookies raised *)
    destruct HL as [Hadd _]. simpl. unfold validation_succeeds. rewrite Hadd. reflexivity.
  - contradiction.
Qed.

Lemma main_exit_code (env : environ) (w : world) :
  run_exit_code env w = if run_succeeds env w then 0%Z else 1%Z.
Proof.
  unfold run_exit_code, main, run_succeeds. cbv zeta.
  destruct (truthy (ZEABUR_COOKIE env)); cbn [negb andb]; [|reflexivity].
  cbv beta iota delta [bind emit launch raise].
  destruct (w_launch_ok w); cbn [andb]; [|reflexivity].
  cbn [next_page open_pages page_urls nav_count trace fresh_state].
  unfold try_finally, try_except.
  match goal with |- context [main_body env w ?c ?st] =>
    pose proof (body_result env w c st eq_refl eq_refl) as HB;
    destruct (main_body env w c st) as [s1 r1] end.
  specialize (HB ltac:(split; [reflexivity | intros q Hq; simpl in Hq; intuition discriminate])).
  cbn [snd] in HB.
  destruct r1 as [[]| e | c].
  - rewrite HB. unfold browser_close, emit, raise.
    destruct (w_close_ok w); reflexivity.
  - cbv beta iota. destruct (truthy (TG_BOT_TOKEN env) && truthy (TG_CHAT_ID env)).
    + match goal with |- context [send_telegram_message ?t ?b ?c ?m ?st] =>
        pose proof (send_message_spec t b c m st) as H1;
        destruct (send_telegram_message t b c m st) as [s2 r2]; cbv zeta in H1;
        destruct H1 as [-> _] end.
      unfold ret, sys_exit. rewrite HB. unfold browser_close, emit, raise.
      destruct (w_close_ok w); reflexivity.
    + unfold ret, sys_exit. rewrite HB. unfold browser_close, emit, raise.
      destruct (w_close_ok w); reflexivity.
  - destruct HB as [-> HB]. rewrite HB. unfold browser_close, emit, raise.
    destruct (w_close_ok w); reflexivity.
Qed.

End RunFacts.

(** ** Secret update, notifier and entry point claims *)
Import RunFacts.

(** C4 (counterexample): a GET answered 200 whose body is not JSON is not
    a failed request in the claim's sense, yet no PUT follows; and a PUT
    answered 304 (not 2xx) does not make the call raise. *)
Lemma update_secret_counterexample :
  (let g := mk_github (HttpStatus 200) None (HttpStatus 204) (fun _ v => v) in
   request_fails (gh_get_status g) = false /\
   requests_of (trace (fst (update_github_secret g (lit "t") (lit "o") (lit "r")
                              (lit "ZEABUR_COOKIE") (lit "a=b") fresh_state)))
   = [HttpGet (key_url (lit "o") (lit "r"))]) /\
  (let g := mk_github (HttpStatus 200)
              (Some (mk_key_body (Some (Some (repeat 7%Z 32))) (Some (lit "k1"))))
              (HttpStatus 304) (fun _ v => v) in
   request_fails (gh_put_status g) = true /\
   snd (update_github_secret g (lit "t") (lit "o") (lit "r")
          (lit "ZEABUR_COOKIE") (lit "a=b") fresh_state) = PRet tt).
Proof. split; split; vm_compute; reflexivity. Qed.

(** C4 (amended): a call issues one GET of the public-key URL and then at
    most one PUT of the secret's URL, nothing else and no retry; the PUT is
    issued exactly when the GET got through [raise_for_status] (no network
    error, no 4xx or 5xx) and its body holds a usable key; the call returns
    normally exactly when, in addition, the PUT got through, and otherwise
    raises (never exits). *)
Theorem update_secret_protocol (g : github) (token owner repo secret_name secret_value : pystr)
  (s : state) :
  let '(s', r) := update_github_secret g token owner repo secret_name secret_value s in
  (if http_ok (gh_get_status g) && key_usable g then
     exists ev kid, trace s' = trace s ++ [HttpGet (key_url owner repo);
                                           HttpPut (update_url owner repo secret_name) ev kid]
   else trace s' = trace s ++ [HttpGet (key_url owner repo)]) /\
  match r with
  | PRet _ => http_ok (gh_get_status g) = true /\ key_usable g = true /\
              http_ok (gh_put_status g) = true
  | PRaise _ => http_ok (gh_get_status g) && key_usable g && http_ok (gh_put_status g) = false
  | PExit _ => False
  end.
Proof.
  pose proof (update_secret_spec g token owner repo secret_name secret_value s) as H.
  destruct (update_github_secret g token owner repo secret_name secret_value s) as [s' r].
  destruct H as (_ & _ & _ & _ & Ht & HR & HX). split; [exact Ht|].
  unfold secret_update_ok in HR.
  destruct r as [[]| e | c].
  - pose proof (proj1 HR eq_refl) as Hok.
    apply andb_prop in Hok as [Hok Hput]. apply andb_prop in Hok as [Hget Hkey]. auto.
  - destruct (_ && _ && _); [discriminate (proj2 HR eq_refl) | reflexivity].
  - exact (HX c eq_refl).
Qed.

(** C8 (counterexample): a response 304 (not 2xx) counts as a successful
    send for both channels. *)
Lemma notifier_counterexample :
  let t := mk_telegram (fun _ => HttpStatus 304) (fun _ => true) in
  post_fails_non2xx (HttpStatus 304) = true /\
  snd (send_telegram_message t (lit "tok") (lit "42") (lit "hi") fresh_state) = PRet true /\
  snd (send_telegram_photo t (lit "tok") (lit "42") SCREENSHOT_PATH (lit "cap") fresh_state)
  = PRet true.
Proof. split; [|split]; vm_compute; reflexivity. Qed.

(** C8 (amended): [send_telegram_message] and [send_telegram_photo] never
    raise; each returns [True] exactly when its request got through
    [raise_for_status] (no network error or timeout, no 4xx or 5xx) and,
    for the photo, the file could be opened, and otherwise logs a line and
    returns [False]; on the success path the photo is attempted whatever the
    text message did; and the exit status of a run does not depend on the
    Telegram service at all. *)
Theorem notifier_failure_contract (t : telegram) (bot_token chat_id message photo_path caption : pystr)
  (s : state) (env : environ) (w : world) (logs : list pystr) (t' : telegram) :
  (let url := lit "https://api.telegram.org/bot" ++ bot_token ++ lit "/sendMessage" in
   let '(s', r) := send_telegram_message t bot_token chat_id message s in
   r = PRet (http_ok (tg_post t url)) /\
   exists evs, trace s' = trace s ++ evs ++
     (if http_ok (tg_post t url) then [] else [Print (lit "telegram message failed")])) /\
  (let url := lit "https://api.telegram.org/bot" ++ bot_token ++ lit "/sendPhoto" in
   let ok := tg_file_readable t photo_path && http_ok (tg_post t url) in
   let '(s', r) := send_telegram_photo t bot_token chat_id photo_path caption s in
   r = PRet ok /\
   exists evs, trace s' = trace s ++ evs ++
     (if ok then [] else [Print (lit "telegram photo failed")])) /\
  (let '(s', r) := notify_success w bot_token chat_id logs s in
   r = PRet tt /\ In (OpenFile SCREENSHOT_PATH) (trace s')) /\
  run_exit_code env (with_telegram w t') = run_exit_code env w.
Proof.
  split; [|split; [|split]].
  - pose proof (send_message_spec t bot_token chat_id message s) as H.
    destruct (send_telegram_message t bot_token chat_id message s) as [s' r].
    cbv zeta in *. destruct H as [Hr Ht]. split; [exact Hr|].
    match type of Ht with _ = _ ++ ?e :: ?l =>
      exists [e]; rewrite Ht; reflexivity end.
  - pose proof (send_photo_spec t bot_token chat_id photo_path caption s) as H.
    destruct (send_telegram_photo t bot_token chat_id photo_path caption s) as [s' r].
    cbv zeta in *. destruct H as [Hr Ht]. split; [exact Hr|].
    match type of Ht with _ = _ ++ ?e :: ?m ++ ?l =>
      exists (e :: m); rewrite Ht; reflexivity end.
  - pose proof (notify_spec w bot_token chat_id logs s) as H.
    destruct (notify_success w bot_token chat_id logs s) as [s' r].
    destruct H as (Hr & _ & Ho). auto.
  - rewrite !main_exit_code. reflexivity.
Qed.

(** C9: a run exits with status 0 exactly when the cookie is set, the
    browser starts, the validation succeeds and nothing raises afterwards
    (the screenshot, reading the cookies, the secret update when it runs,
    closing the browser), and with status 1 otherwise; without a cookie it
    exits 1 having only printed a line (no browser, no network); when every
    attempt of the validation fails it exits 1. *)
Theorem exit_code_contract (env : environ) (w : world) :
  (run_exit_code env w = 0%Z <-> run_succeeds env w = true) /\
  (run_exit_code env w = 1%Z <-> run_succeeds env w = false) /\
  (truthy (ZEABUR_COOKIE env) = false ->
   run_exit_code env w = 1%Z /\
   trace (fst (main env w fresh_state)) = [Print (lit "error: ZEABUR_COOKIE not set")]) /\
  ((forall a, a <= DEFAULT_MAX_RETRIES -> attempt_fails (nav (w_browser w) a) = true) ->
   run_exit_code env w = 1%Z).
Proof.
  rewrite main_exit_code.
  split; [|split; [|split]].
  - destruct (run_succeeds env w); split; congruence.
  - destruct (run_succeeds env w); split; congruence.
  - intros Hc. unfold run_succeeds. rewrite Hc. split; [reflexivity|].
    unfold main. rewrite Hc. reflexivity.
  - intros Hf. unfold run_succeeds. rewrite (validation_false _ Hf).
    rewrite !Bool.andb_false_r. cbn [andb]. reflexivity.
Qed.

(** ** Traces of whole runs *)
Module TraceFacts.

Arguments lit : simpl never.

Lemma emits_ret {A} (P : event -> Prop) (a : A) : emits P (ret a).
Proof. intros s. exists []. split; [symmetry; apply app_nil_r | constructor]. Qed.

Lemma emits_raise {A} (P : event -> Prop) (e : exn) : emits P (@raise A e).
Proof. intros s. exists []. split; [symmetry; apply app_nil_r | constructor]. Qed.

Lemma emits_sys_exit {A} (P : event -> Prop) (c : Z) : emits P (@sys_exit A c).
Proof. intros s. exists []. split; [symmetry; apply app_nil_r | constructor]. Qed.

Lemma emits_emit (P : event -> Prop) (e : event) : P e -> emits P (emit e).
Proof. intros He s. exists [e]. split; [reflexivity | constructor; auto]. Qed.

Lemma emits_pure {A} (P : event -> Prop) (m : M A) :
  (forall s, trace (fst (m s)) = trace s) -> emits P m.
Proof. intros H s. exists []. rewrite app_nil_r. split; [apply H | constructor]. Qed.

Lemma emits_bind {A B} (P : event -> Prop) (m : M A) (k : A -> M B) :
  emits P m -> (forall a, emits P (k a)) -> emits P (bind m k).
Proof.
  intros Hm Hk s. unfold bind. destruct (Hm s) as [n1 [H1 F1]].
  destruct (m s) as [s1 [a|e|c]]; simpl in *.
  - destruct (Hk a s1) as [n2 [H2 F2]]. exists (n1 ++ n2).
    rewrite H2, H1, app_assoc. split; [reflexivity | apply Forall_app; auto].
  - exists n1. auto.
  - exists n1. auto.
Qed.

Lemma emits_try_except {A} (P : event -> Prop) (m : M A) (h : exn -> M A) :
  emits P m -> (forall e, emits P (h e)) -> emits P (try_except m h).
Proof.
  intros Hm Hh s. unfold try_except. destruct (Hm s) as [n1 [H1 F1]].
  destruct (m s) as [s1 [a|e|c]]; simpl in *.
  - exists n1. auto.
  - destruct (Hh e s1) as [n2 [H2 F2]]. exists (n1 ++ n2).
    rewrite H2, H1, app_assoc. split; [reflexivity | apply Forall_app; auto].
  - exists n1. auto.
Qed.

Lemma emits_try_finally {A} (P : event -> Prop) (m : M A) (f : M unit) :
  emits P m -> emits P f -> emits P (try_finally m f).
Proof.
  intros Hm Hf s. unfold try_finally. destruct (Hm s) as [n1 [H1 F1]].
  destruct (m s) as [s1 r]. destruct (Hf s1) as [n2 [H2 F2]].
  destruct (f s1) as [s2 [u|e|c]]; simpl in *;
    exists (n1 ++ n2); rewrite H2, H1, app_assoc; split; auto; apply Forall_app; auto.
Qed.

Lemma emits_mono {A} (P Q : event -> Prop) (m : M A) :
  (forall e, P e -> Q e) -> emits P m -> emits Q m.
Proof.
  intros HPQ Hm s. destruct (Hm s) as [n [H F]]. exists n. split; [exact H|].
  eapply Forall_impl; eauto.
Qed.

Lemma emits_new_page (P : event -> Prop) : (forall p, P (NewPage p)) -> emits P new_page.
Proof. intros H s. exists [NewPage (next_page s)]. split; [reflexivity | constructor; auto]. Qed.

Lemma emits_close_page (P : event -> Prop) (p : page) : P (ClosePage p) -> emits P (close_page p).
Proof. intros H s. exists [ClosePage p]. split; [reflexivity | constructor; auto]. Qed.

Lemma emits_bind_val {A B} (P : event -> Prop) (m : M A) (k : A -> M B) (Q : A -> Prop) :
  emits P m ->
  (forall s, match snd (m s) with PRet a => Q a | _ => True end) ->
  (forall a, Q a -> emits P (k a)) -> emits P (bind m k).
Proof.
  intros Hm HQ Hk s. unfold bind. destruct (Hm s) as [n1 [H1 F1]]. specialize (HQ s).
  destruct (m s) as [s1 [a|e|c]]; simpl in *.
  - destruct (Hk a HQ s1) as [n2 [H2 F2]]. exists (n1 ++ n2).
    rewrite H2, H1, app_assoc. split; [reflexivity | apply Forall_app; auto].
  - exists n1. auto.
  - exists n1. auto.
Qed.

Lemma emits_after {A} (P : event -> Prop) (m : M A) (s s1 : state) (n1 : list event) :
  trace s1 = trace s ++ n1 -> Forall P n1 -> emits P m ->
  exists new, trace (fst (m s1)) = trace s ++ new /\ Forall P new.
Proof.
  intros H1 F1 Hm. destruct (Hm s1) as [n2 [H2 F2]]. exists (n1 ++ n2).
  rewrite H2, H1, app_assoc. split; [reflexivity | apply Forall_app; auto].
Qed.

Ltac emits_tac :=
  repeat lazymatch goal with
  | |- emits _ (bind _ _) => apply emits_bind; [| intros ?]
  | |- emits _ (try_except _ _) => apply emits_try_except; [| intros ?]
  | |- emits _ (try_finally _ _) => apply emits_try_finally
  | |- emits _ (ret _) => apply emits_ret
  | |- emits _ (raise _) => apply emits_raise
  | |- emits _ (sys_exit _) => apply emits_sys_exit
  | |- emits _ (emit _) => apply emits_emit; simpl; auto
  | |- emits _ (match ?x with _ => _ end) => destruct x
  | |- emits _ (if ?b then _ else _) => destruct b
  | |- emits _ new_page => apply emits_new_page; intros; simpl; auto
  | |- emits _ (close_page _) => apply emits_close_page; simpl; auto
  | |- emits _ (set_url _ _) => apply emits_pure; reflexivity
  | |- emits _ bump_nav => apply emits_pure; reflexivity
  | |- emits _ (page_url _) => apply emits_pure; reflexivity
  | |- emits _ (goto _ _ _) => unfold goto
  | |- emits _ (context_add_cookies _ _) => unfold context_add_cookies
  | |- emits _ (http_request _) => unfold http_request
  | |- emits _ (raise_for_status _) => unfold raise_for_status
  | |- emits _ (post _ _ _) => unfold post
  | |- emits _ (open_file _ _) => unfold open_file
  | |- emits _ (send_telegram_message _ _ _ _) => unfold send_telegram_message
  | |- emits _ (send_telegram_photo _ _ _ _ _) => unfold send_telegram_photo
  | |- emits _ (notify_success _ _ _ _) => unfold notify_success
  | |- emits _ (launch _) => unfold launch
  | |- emits _ (screenshot _ _) => unfold screenshot
  | |- emits _ (context_cookies _) => unfold context_cookies
  | |- emits _ (browser_close _) => unfold browser_close
  | |- emits _ (split_repo _) => unfold split_repo
  | |- emits _ (let _ := _ in _) => cbv zeta
  end.

Lemma login_emits (b : browser) (cookie_string : pystr) (max_retries : nat) :
  emits (login_event cookie_string) (login_with_cookie b cookie_string max_retries).
Proof.
  unfold login_with_cookie. emits_tac.
  generalize (seq 0 (S max_retries)) as l. induction l as [|att l IH]; simpl; emits_tac.
  exact IH.
Qed.

Lemma update_emits (g : github) (token owner repo secret_name secret_value : pystr) :
  emits (secret_event g owner repo secret_name secret_value)
    (update_github_secret g token owner repo secret_name secret_value).
Proof.
  unfold update_github_secret.
  apply emits_bind; [apply emits_emit; reflexivity | intros _].
  apply emits_bind; [emits_tac | intros _].
  destruct (gh_get_json g) as [kd|] eqn:Hj; [|emits_tac].
  destruct (kb_key kd) as [[key|]|] eqn:Hk; [|emits_tac|emits_tac].
  destruct (negb _); [emits_tac|].
  destruct (kb_key_id kd) as [kid|] eqn:Hi; [|emits_tac].
  apply emits_bind; [apply emits_emit | intros _; emits_tac].
  simpl. split; [reflexivity|]. exists kd, key. auto.
Qed.

Lemma bind_step {A B} (m : M A) (k : A -> M B) (s s1 : state) (a : A) :
  m s = (s1, PRet a) -> bind m k s = k a s1.
Proof. intros H. unfold bind. rewrite H. reflexivity. Qed.

Lemma main_no_tg_emits (env : environ) (w : world) :
  truthy (TG_BOT_TOKEN env) && truthy (TG_CHAT_ID env) = false ->
  emits no_telegram (main env w).
Proof.
  intros Htg. unfold main, main_body. cbv zeta. rewrite Htg.
  emits_tac.
  all: try (eapply emits_mono; [|apply login_emits]; intros []; simpl; tauto).
  all: try (eapply emits_mono; [|apply update_emits]; intros []; simpl; tauto).
Qed.

Lemma main_close_emits (env : environ) (w : world) (cs : pystr) :
  emits (fun e => e <> CloseBrowser)
    (try_except (main_body env w cs)
       (fun _ => emit (Print (lit "run failed")) ;;;
                 (if truthy (TG_BOT_TOKEN env) && truthy (TG_CHAT_ID env) then
                    _ <- send_telegram_message (w_telegram w) (the_str (TG_BOT_TOKEN env))
                           (the_str (TG_CHAT_ID env)) (lit "run failed") ;; ret tt
                  else ret tt) ;;;
                 sys_exit 1)).
Proof.
  unfold main_body. cbv zeta. emits_tac; try discriminate.
  all: try (eapply emits_mono; [|apply login_emits]; intros [] He; simpl in He; try tauto; discriminate).
  all: try (eapply emits_mono; [|apply update_emits]; intros [] He; simpl in He; try tauto; discriminate).
Qed.

Lemma body_github (env : environ) (w : world) (s : state) :
  truthy (ZEABUR_COOKIE env) = true -> w_launch_ok w = true ->
  open_pages s = [] -> nav_count s = 0 -> Inv s ->
  exists new, trace (fst (main_body env w (the_str (ZEABUR_COOKIE env)) s)) = trace s ++ new /\
              Forall (github_event_ok env w) new.
Proof.
  intros Hc Hl Hopen Hnav Hinv. unfold main_body. cbv zeta. unfold bind at 1.
  pose proof (login_spec_from (w_browser w) (the_str (ZEABUR_COOKIE env)) DEFAULT_MAX_RETRIES s Hopen Hnav Hinv) as HL.
  destruct (login_emits (w_browser w) (the_str (ZEABUR_COOKIE env)) DEFAULT_MAX_RETRIES s) as [n1 [H1 F1]].
  destruct (login_with_cookie (w_browser w) (the_str (ZEABUR_COOKIE env)) DEFAULT_MAX_RETRIES s) as [s1 r1].
  cbn [fst] in H1.
  assert (F1' : Forall (github_event_ok env w) n1)
    by (eapply Forall_impl; [|exact F1]; intros [] He; simpl in *; tauto).
  destruct HL as [_ HL].
  destruct r1 as [[p [|]] | e | c].
  - destruct HL as (Hadd & k & Hk & _ & _ & _ & _ & u & Hu1 & Hu2 & _).
    assert (Hv : validation_succeeds (w_browser w) = true).
    { eapply validation_true; [exact Hadd | | exact Hu1 | exact Hu2].
      unfold DEFAULT_MAX_RETRIES in *; lia. }
    cbv beta iota. eapply emits_after; [exact H1 | exact F1' |].
    cbn [negb].
    apply emits_bind; [emits_tac | intros _].
    apply (emits_bind_val _ _ _ (fun _ => w_screenshot_ok w = true));
      [unfold screenshot; emits_tac
      | intros s0; unfold screenshot; destruct (w_screenshot_ok w); simpl; auto
      | intros _ Hs].
    apply emits_bind; [emits_tac | intros _].
    apply (emits_bind_val _ _ _ (fun cs => w_cookies w = Some cs));
      [unfold context_cookies; emits_tac
      | intros s0; unfold context_cookies; destruct (w_cookies w); simpl; auto
      | intros cs Hck].
    apply emits_bind; [| intros logs; emits_tac].
    destruct (_ && _ && _) eqn:Hg; [|emits_tac].
    apply emits_bind; [emits_tac | intros _].
    apply (emits_bind_val _ _ _
             (fun on => split_on "/" (the_str (GITHUB_REPOSITORY env)) = [fst on; snd on]));
      [unfold split_repo; emits_tac
      | intros s0; unfold split_repo;
        destruct (split_on "/" (the_str (GITHUB_REPOSITORY env))) as [|o [|n [|x y]]];
        simpl; auto
      | intros [o n] Hsp; simpl in Hsp].
    assert (Hpub : published_from env w cs o n) by (repeat split; assumption).
    cbv beta iota.
    apply emits_bind; [| intros _; emits_tac].
    eapply emits_mono; [|apply update_emits].
    intros [] He; simpl in He; try tauto.
    + do 3 eexists. split; [exact Hpub | exact He].
    + destruct He as [Hu (kd & key & Hkd & Hkey & Hkid & Hev)].
      do 5 eexists. split; [exact Hpub|]. repeat split; eassumption.
  - cbv beta iota. eapply emits_after; [exact H1 | exact F1' |].
    cbn [negb]. emits_tac.
  - exists n1. auto.
  - contradiction.
Qed.

Lemma handler_emits (P : event -> Prop) (env : environ) (w : world) (msg : pystr) :
  (forall m, P (Print m)) -> (forall u f, P (HttpPost u f)) ->
  emits P (emit (Print msg) ;;;
           (if truthy (TG_BOT_TOKEN env) && truthy (TG_CHAT_ID env) then
              _ <- send_telegram_message (w_telegram w) (the_str (TG_BOT_TOKEN env))
                     (the_str (TG_CHAT_ID env)) msg ;; ret tt
            else ret tt) ;;;
           @sys_exit unit 1%Z).
Proof. intros HP HH. emits_tac. Qed.

Lemma in_split_on (sep x : ascii) (s seg : pystr) :
  In seg (split_on sep s) -> In x seg -> In x s.
Proof.
  revert seg. induction s as [|c t IH]; intros seg; simpl.
  - intros [<- | []] [].
  - destruct (Ascii.eqb c sep).
    + intros [<- | Hs] Hx; [destruct Hx | right; exact (IH _ Hs Hx)].
    + destruct (split_on sep t) as [|h r] eqn:E.
      * intros [<- | []] [Hx | []]. left. exact Hx.
      * intros [<- | Hs] Hx.
        -- destruct Hx as [Hx | Hx]; [left; exact Hx | right; apply (IH h); [left; reflexivity | exact Hx]].
        -- right. apply (IH seg); [right; exact Hs | exact Hx].
Qed.

Lemma filter_none {A} (f : A -> bool) (l : list A) :
  (forall x, In x l -> f x = false) -> filter f l = [].
Proof.
  induction l as [|a l IH]; simpl; intros H; [reflexivity|].
  rewrite (H a (or_introl eq_refl)). apply IH. intros x Hx. apply H. right. exact Hx.
Qed.

Lemma split_on_app (sep : ascii) (x y : pystr) :
  split_on sep (x ++ sep :: y) = split_on sep x ++ split_on sep y.
Proof.
  induction x as [|c x IH]; simpl.
  - rewrite Ascii.eqb_refl. reflexivity.
  - destruct (Ascii.eqb c sep); [rewrite IH; reflexivity|].
    rewrite IH. pose proof (split_on_nonempty sep x) as Hn.
    destruct (split_on sep x) as [|h r]; [contradiction | reflexivity].
Qed.



Lemma name_value_nonempty (c : cookie) : name_value c <> [].
Proof. rewrite name_value_shape. destruct (name c); discriminate. Qed.

Lemma join_nonempty (p : pystr) (ps : list pystr) : p <> [] -> join (lit "; ") (p :: ps) <> [].
Proof. simpl. destruct p; [contradiction | discriminate]. Qed.

Lemma filter_nil_iff {A} (f : A -> bool) (l : list A) :
  filter f l = [] <-> Forall (fun x => f x = false) l.
Proof.
  induction l as [|a l IH]; simpl; [split; auto|].
  destruct (f a) eqn:Ha; split.
  - discriminate.
  - intros H. inversion H; congruence.
  - intros H. constructor; [exact Ha | apply IH, H].
  - intros H. inversion H. apply IH. assumption.
Qed.

Lemma join_app_cons (p q : pystr) (ps qs : list pystr) :
  join (lit "; ") ((p :: ps) ++ q :: qs) =
  join (lit "; ") (p :: ps) ++ lit "; " ++ join (lit "; ") (q :: qs).
Proof.
  simpl. rewrite map_app, concat_app. simpl. rewrite !app_assoc. reflexivity.
Qed.




Lemma split_on_one (sep : ascii) (t n : pystr) : split_on sep t = [n] -> t = n.
Proof.
  revert n. induction t as [|c t IH]; intros n; simpl.
  - intros E. injection E as <-. reflexivity.
  - destruct (Ascii.eqb c sep) eqn:Ec.
    + pose proof (split_on_nonempty sep t). destruct (split_on sep t); [contradiction | discriminate].
    + pose proof (split_on_nonempty sep t) as Hn. destruct (split_on sep t) as [|h r] eqn:E; [contradiction|].
      intros F. injection F as <- ->. f_equal. apply IH. reflexivity.
Qed.

Lemma split_on_two (sep : ascii) (s o n : pystr) : split_on sep s = [o; n] -> s = o ++ sep :: n.
Proof.
  revert o. induction s as [|c t IH]; intros o; simpl; [discriminate|].
  destruct (Ascii.eqb c sep) eqn:Ec.
  - apply Ascii.eqb_eq in Ec as ->. intros F. injection F as <- F.
    simpl. f_equal. exact (split_on_one sep t n F).
  - pose proof (split_on_nonempty sep t) as Hn. destruct (split_on sep t) as [|h r] eqn:E; [contradiction|].
    intros F. injection F as <- ->. simpl. f_equal. apply IH. reflexivity.
Qed.

End TraceFacts.

Import TraceFacts.

(** ** Further properties of the code *)

(** X1: a cookie string without any [=] (the empty string among them)
    gives no record at all. *)
Theorem parse_cookies_without_eq (cookie_string : pystr) :
  ~ In "="%char cookie_string -> parse_cookies cookie_string = [].
Proof.
  intros Hs. rewrite parse_cookies_segments. rewrite filter_none; [reflexivity|].
  intros seg Hseg. apply has_char_false. intros Hx. exact (Hs (in_split_on _ _ _ _ Hseg Hx)).
Qed.

Lemma parse_cookies_without_eq_witness :
  ~ In "="%char (lit " a ; b") /\ parse_cookies (lit " a ; b") = [].
Proof.
  split; [vm_compute; intuition discriminate|].
  apply parse_cookies_without_eq. vm_compute. intuition discriminate.
Defined.

(** X2: [parse_cookies] is a homomorphism over [;]: the records of two
    strings joined by [;] are those of the first followed by those of the
    second. *)
Theorem parse_cookies_app (s1 s2 : pystr) :
  parse_cookies (s1 ++ ";"%char :: s2) = parse_cookies s1 ++ parse_cookies s2.
Proof.
  rewrite !parse_cookies_segments, split_on_app, filter_app, map_app. reflexivity.
Qed.

(** X3: every record [parse_cookies] produces has a name without [;] and
    [=], a value without [;], and neither has surrounding whitespace. *)
Theorem parse_cookies_header_safe (cookie_string : pystr) (c : cookie) :
  In c (parse_cookies cookie_string) -> header_safe c = true.
Proof.
  intros Hc. apply parse_cookies_in in Hc as [seg [Hseg ->]].
  apply segment_cookie_header_safe. exact (split_on_pieces _ _ _ Hseg).
Qed.

Lemma parse_cookies_header_safe_witness :
  In (zeabur_cookie (lit "a") (lit "b")) (parse_cookies (lit " a = b ;x")) /\
  header_safe (zeabur_cookie (lit "a") (lit "b")) = true.
Proof.
  split; [vm_compute; left; reflexivity|].
  apply (parse_cookies_header_safe (lit " a = b ;x")). vm_compute. left. reflexivity.
Defined.


(** X5: [format_cookies] returns the empty string exactly when no record
    passes the domain filter. *)
Theorem format_cookies_empty (cs : list cookie) :
  format_cookies cs = [] <-> Forall (fun c => domain_matches c = false) cs.
Proof.
  rewrite <- filter_nil_iff. unfold format_cookies.
  destruct (filter domain_matches cs) as [|c rest]; simpl map.
  - split; reflexivity.
  - split; [intros E; exfalso; exact (join_nonempty _ _ (name_value_nonempty c) E) | discriminate].
Qed.

(** X6: the encoding of two lists appended is the two encodings joined by
    ["; "], an empty encoding contributing nothing (no stray separator). *)
Theorem format_cookies_app (l1 l2 : list cookie) :
  format_cookies (l1 ++ l2) =
  match format_cookies l1, format_cookies l2 with
  | [], f2 => f2
  | f1, [] => f1
  | f1, f2 => f1 ++ lit "; " ++ f2
  end.
Proof.
  unfold format_cookies. rewrite filter_app, map_app.
  destruct (filter domain_matches l1) as [|c1 r1]; [reflexivity|].
  destruct (filter domain_matches l2) as [|c2 r2].
  - rewrite app_nil_r. cbn [map].
    destruct (join (lit "; ") (name_value c1 :: map name_value r1)) eqn:E; reflexivity.
  - cbn [map]. rewrite join_app_cons.
    pose proof (join_nonempty _ (map name_value r1) (name_value_nonempty c1)) as N1.
    pose proof (join_nonempty _ (map name_value r2) (name_value_nonempty c2)) as N2.
    destruct (join (lit "; ") (name_value c1 :: map name_value r1)); [contradiction|].
    destruct (join (lit "; ") (name_value c2 :: map name_value r2)); [contradiction|].
    reflexivity.
Qed.

(** X7: when [context.add_cookies] raises, [login_with_cookie] propagates
    the exception after printing one line: no page is opened and nothing is
    navigated. *)
Theorem login_add_cookies_rejected (b : browser) (cs : pystr) (mr : nat) (s : state) :
  add_cookies_ok b = false ->
  login_with_cookie b cs mr s =
  ({| next_page := next_page s; open_pages := open_pages s; page_urls := page_urls s;
      nav_count := nav_count s; trace := trace s ++ [Print (lit "trying cookie login")] |},
   PRaise PlaywrightError).
Proof.
  intros H. unfold login_with_cookie, context_add_cookies. rewrite H. reflexivity.
Qed.

Lemma login_add_cookies_rejected_witness :
  add_cookies_ok (mk_browser false (fun _ => NavUrl ZEABUR_DASHBOARD_URL)) = false /\
  login_with_cookie (mk_browser false (fun _ => NavUrl ZEABUR_DASHBOARD_URL)) (lit "a=b") 2 fresh_state =
  (mk_state 0 [] [] 0 [Print (lit "trying cookie login")], PRaise PlaywrightError).
Proof.
  split; [reflexivity|].
  exact (login_add_cookies_rejected (mk_browser false (fun _ => NavUrl ZEABUR_DASHBOARD_URL))
           (lit "a=b") 2 fresh_state eq_refl).
Defined.


(** X9: [login_with_cookie] only adds the cookies parsed from its cookie
    string, only navigates to the dashboard URL and only waits 3000 ms;
    it takes no screenshot, reads no cookies and issues no HTTP request. *)
Theorem login_only_dashboard (b : browser) (cookie_string : pystr) (max_retries : nat) :
  emits (login_event cookie_string) (login_with_cookie b cookie_string max_retries).
Proof. exact (login_emits b cookie_string max_retries). Qed.

(** X10: [update_github_secret] issues only the GET of the public-key URL
    and a PUT of the secret URL whose key id is the one of the GET response
    and whose value is the secret sealed with the decoded key of that
    response. *)
Theorem update_secret_put_payload (g : github) (token owner repo secret_name secret_value : pystr) :
  emits (secret_event g owner repo secret_name secret_value)
    (update_github_secret g token owner repo secret_name secret_value).
Proof. exact (update_emits g token owner repo secret_name secret_value). Qed.

(** X11: when the photo file cannot be opened, [send_telegram_photo]
    issues no request: it records the open attempt, prints one line and
    returns [False]. *)
Theorem photo_unreadable_no_post (t : telegram) (bot_token chat_id photo_path caption : pystr) (s : state) :
  tg_file_readable t photo_path = false ->
  let '(s', r) := send_telegram_photo t bot_token chat_id photo_path caption s in
  r = PRet false /\
  trace s' = trace s ++ [OpenFile photo_path; Print (lit "telegram photo failed")].
Proof.
  intros H. pose proof (send_photo_spec t bot_token chat_id photo_path caption s) as P.
  cbv zeta in P. rewrite H in P. simpl andb in P.
  destruct (send_telegram_photo t bot_token chat_id photo_path caption s) as [s' r]. exact P.
Qed.

(** X12: [owner, repo_name = repo.split('/')] succeeds, leaving the state
    as it is, exactly when [repo] has exactly one [/], and then the two
    names are the text before and after it. *)
Theorem split_repo_spec (repo owner repo_name : pystr) (s : state) :
  split_repo repo s = (s, PRet (owner, repo_name)) <->
  repo = owner ++ "/"%char :: repo_name /\ ~ In "/"%char owner /\ ~ In "/"%char repo_name.
Proof.
  unfold split_repo. split.
  - destruct (split_on "/" repo) as [|o [|n [|x r]]] eqn:E; try discriminate.
    intros F. injection F as -> ->. split; [exact (split_on_two _ _ _ _ E)|].
    split; apply (split_on_pieces "/" repo); rewrite E; simpl; auto.
  - intros [-> [Ho Hn]]. rewrite split_on_app_sep, !split_on_no_sep by assumption. reflexivity.
Qed.

(** X13: when starting the browser raises, [main] propagates the exception
    after printing one line: the [try] is not entered, so no failure
    message is sent and [browser.close()] is not called. *)
Theorem main_launch_failure (env : environ) (w : world) (s : state) :
  truthy (ZEABUR_COOKIE env) = true -> w_launch_ok w = false ->
  main env w s =
  ({| next_page := next_page s; open_pages := open_pages s; page_urls := page_urls s;
      nav_count := nav_count s; trace := trace s ++ [Print (lit "starting browser")] |},
   PRaise PlaywrightError).
Proof.
  intros Hc Hl. unfold main. rewrite Hc. cbn [negb].
  erewrite (bind_step (emit _)) by reflexivity.
  unfold bind at 1, launch. rewrite Hl. reflexivity.
Qed.

Lemma main_launch_failure_witness :
  truthy (Some (lit "a=b")) = true /\ w_launch_ok (mk_world false redirect_twice true None
       (mk_github (HttpStatus 200) None (HttpStatus 204) (fun _ v => v))
       (mk_telegram (fun _ => HttpStatus 200) (fun _ => true)) true (lit "now")) = false /\
  main (mk_environ (Some (lit "a=b")) None None (Some (lit "tok")) (Some (lit "42")))
    (mk_world false redirect_twice true None
       (mk_github (HttpStatus 200) None (HttpStatus 204) (fun _ v => v))
       (mk_telegram (fun _ => HttpStatus 200) (fun _ => true)) true (lit "now")) fresh_state
  = (mk_state 0 [] [] 0 [Print (lit "starting browser")], PRaise PlaywrightError).
Proof.
  split; [reflexivity | split; [reflexivity|]].
  exact (main_launch_failure
    (mk_environ (Some (lit "a=b")) None None (Some (lit "tok")) (Some (lit "42")))
    (mk_world false redirect_twice true None
       (mk_github (HttpStatus 200) None (HttpStatus 204) (fun _ v => v))
       (mk_telegram (fun _ => HttpStatus 200) (fun _ => true)) true (lit "now")) fresh_state
    eq_refl eq_refl).
Defined.

(** X14: when [TG_BOT_TOKEN] or [TG_CHAT_ID] is unset or empty, a run
    sends no Telegram request and opens no file, whatever happens. *)
Theorem main_no_telegram (env : environ) (w : world) :
  truthy (TG_BOT_TOKEN env) && truthy (TG_CHAT_ID env) = false ->
  Forall no_telegram (trace (fst (main env w fresh_state))).
Proof.
  intros Htg. destruct (main_no_tg_emits env w Htg fresh_state) as [n [H F]].
  rewrite H. exact F.
Qed.

Lemma main_no_telegram_witness :
  truthy None && truthy (Some (lit "42")) = false /\
  Forall no_telegram (trace (fst (main
    (mk_environ (Some (lit "a=b")) (Some (lit "tok")) (Some (lit "o/r")) None (Some (lit "42")))
    (mk_world true redirect_twice true (Some [zeabur_cookie (lit "a") (lit "b")])
       (mk_github (HttpStatus 200) None (HttpStatus 204) (fun _ v => v))
       (mk_telegram (fun _ => HttpStatus 200) (fun _ => true)) true (lit "now"))
    fresh_state))).
Proof.
  split; [reflexivity|].
  apply (main_no_telegram
    (mk_environ (Some (lit "a=b")) (Some (lit "tok")) (Some (lit "o/r")) None (Some (lit "42")))
    (mk_world true redirect_twice true (Some [zeabur_cookie (lit "a") (lit "b")])
       (mk_github (HttpStatus 200) None (HttpStatus 204) (fun _ v => v))
       (mk_telegram (fun _ => HttpStatus 200) (fun _ => true)) true (lit "now"))).
  reflexivity.
Defined.

(** X15: once the browser has started, [main] closes it exactly once, as
    the last event of the run, whatever the body does (success, exception
    or [sys.exit(1)]), provided [browser.close()] itself succeeds. *)
Lemma main_closes_browser_last (env : environ) (w : world) :
  truthy (ZEABUR_COOKIE env) = true -> w_launch_ok w = true -> w_close_ok w = true ->
  exists t, trace (fst (main env w fresh_state)) =
            [Print (lit "starting browser"); LaunchBrowser] ++ t ++ [CloseBrowser] /\
            ~ In CloseBrowser t.
Proof.
  intros Hc Hl Hcl. unfold main. rewrite Hc. cbn [negb].
  erewrite (bind_step (emit _)) by reflexivity.
  unfold launch at 1. rewrite Hl.
  erewrite (bind_step (emit _)) by reflexivity.
  unfold try_finally.
  match goal with |- context [try_except ?m ?h ?st] =>
    destruct (main_close_emits env w (the_str (ZEABUR_COOKIE env)) st) as [t [Ht Ft]];
    destruct (try_except m h st) as [s1 r] end.
  cbn [fst] in Ht. unfold browser_close. rewrite Hcl. unfold emit. cbn [fst trace].
  exists t. rewrite Ht. split; [reflexivity|].
  intros Hin. rewrite Forall_forall in Ft. exact (Ft _ Hin eq_refl).
Qed.

Lemma main_closes_browser_last_witness :
  truthy (Some (lit "a=b")) = true /\
  exists t, trace (fst (main
    (mk_environ (Some (lit "a=b")) None None None None)
    (mk_world true all_raise true None
       (mk_github (HttpStatus 200) None (HttpStatus 204) (fun _ v => v))
       (mk_telegram (fun _ => HttpStatus 200) (fun _ => true)) true (lit "now"))
    fresh_state)) =
    [Print (lit "starting browser"); LaunchBrowser] ++ t ++ [CloseBrowser] /\ ~ In CloseBrowser t.
Proof.
  split; [reflexivity|].
  apply (main_closes_browser_last
    (mk_environ (Some (lit "a=b")) None None None None)
    (mk_world true all_raise true None
       (mk_github (HttpStatus 200) None (HttpStatus 204) (fun _ v => v))
       (mk_telegram (fun _ => HttpStatus 200) (fun _ => true)) true (lit "now")));
    reflexivity.
Defined.

(** X16: every GitHub request of a run is issued only after the login
    succeeded, the screenshot was taken, the cookies were read and the
    token, repository and encoding were all non-empty; it targets the
    repository named by [GITHUB_REPOSITORY] and the secret
    [ZEABUR_COOKIE], and the PUT carries the sealed encoding of the
    cookies read from the browser. *)
Theorem main_github_requests (env : environ) (w : world) :
  Forall (github_event_ok env w) (trace (fst (main env w fresh_state))).
Proof.
  unfold main. destruct (truthy (ZEABUR_COOKIE env)) eqn:Hc; cbn [negb].
  2:{ erewrite (bind_step (emit _)) by reflexivity. repeat constructor. }
  erewrite (bind_step (emit _)) by reflexivity.
  unfold launch at 1. destruct (w_launch_ok w) eqn:Hl.
  2:{ repeat constructor. }
  erewrite (bind_step (emit _)) by reflexivity.
  unfold try_finally, try_except.
  match goal with |- context [main_body env w ?c ?st] =>
    destruct (body_github env w st Hc Hl eq_refl eq_refl
                ltac:(split; [reflexivity | intros q Hq; simpl in Hq; intuition discriminate]))
      as [n1 [H1 F1]];
    destruct (main_body env w c st) as [s1 r1] end.
  cbn [fst trace] in H1.
  assert (Hpre : Forall (github_event_ok env w) (trace s1)).
  { rewrite H1. repeat constructor. exact F1. }
  assert (Hclose : forall s2, Forall (github_event_ok env w) (trace s2) ->
            Forall (github_event_ok env w) (trace (fst (browser_close w s2)))).
  { intros s2 H2. unfold browser_close. destruct (w_close_ok w); simpl; [|exact H2].
    apply Forall_app. split; [exact H2 | repeat constructor]. }
  destruct r1 as [u | e | c].
  - destruct (browser_close w s1) as [s2 r2] eqn:E. pose proof (Hclose s1 Hpre) as Hc2.
    rewrite E in Hc2. destruct r2; exact Hc2.
  - destruct (handler_emits (github_event_ok env w) env w (lit "run failed")
                (fun _ => I) (fun _ _ => I) s1) as [n2 [H2 F2]].
    cbv beta iota.
    match type of H2 with context [fst (?m s1)] => destruct (m s1) as [s3 r3] end.
    cbn [fst] in H2.
    assert (Hs3 : Forall (github_event_ok env w) (trace s3))
      by (rewrite H2; apply Forall_app; auto).
    destruct (browser_close w s3) as [s2 r2] eqn:E. pose proof (Hclose s3 Hs3) as Hc2.
    rewrite E in Hc2. destruct r2; exact Hc2.
  - destruct (browser_close w s1) as [s2 r2] eqn:E. pose proof (Hclose s1 Hpre) as Hc2.
    rewrite E in Hc2. destruct r2; exact Hc2.
Qed.
